(** * Scribe-AI: the session-scoped streaming transcription engine

    A shallow embedding of the chunk-processing pipeline of the
    repository (server/services/transcription.ts, the two Gemini
    back-end modules and the module written before them, the summary
    service of lib/gemini.ts, the Socket.io handlers and the audio
    stream of the server entry point, the session routes, the recording
    hook and the list of live chunks of the dashboard), followed by the
    properties the specification states about it and by further
    properties of the code.

    Conventions of the embedding.
    - A JavaScript string is the list of its UTF-16 code units ([N]);
      regular expressions without the [u] flag and [includes], [trim],
      [startsWith] all work on code units.
    - Chunk indices and times are non-negative integers ([N]) and a
      template literal [${n}] renders them in decimal, which is what
      JavaScript does for every non-negative integer below 10^21.
    - Asynchronous functions are functions from the state they read to
      the state they leave; what the outside world answers (the remote
      services, the WebSocket library) is an explicit argument.
    - The persistence layer is reliable: a Prisma call throws only when
      [update] is asked for a row that does not exist.
    - Calls are taken one at a time; how concurrent calls interleave is
      outside the model. *)

From Stdlib Require Import NArith Ascii String Decimal.
From stdpp Require Import base option list gmap sorting.

Local Open Scope N_scope.

(* ===================================================================== *)
(** * JavaScript strings                                                  *)
(* ===================================================================== *)

Module JsString.

Definition jsstring := list N.

(** An ASCII literal as a JavaScript string. *)
Definition lit (s : string) : jsstring :=
  map N_of_ascii (list_ascii_of_string s).

(** [WhiteSpace] and [LineTerminator] code points of ECMAScript, the
    characters [String.prototype.trim] strips. *)
Definition isWhiteSpace (c : N) : bool :=
  (c =? 9) || (c =? 10) || (c =? 11) || (c =? 12) || (c =? 13) || (c =? 32)
  || (c =? 160) || (c =? 5760) || ((8192 <=? c) && (c <=? 8202))
  || (c =? 8232) || (c =? 8233) || (c =? 8239) || (c =? 8287)
  || (c =? 12288) || (c =? 65279).

Fixpoint trimStart (s : jsstring) : jsstring :=
  match s with
  | [] => []
  | c :: s' => if isWhiteSpace c then trimStart s' else s
  end.

Definition trimEnd (s : jsstring) : jsstring := rev (trimStart (rev s)).

Definition trim (s : jsstring) : jsstring := trimEnd (trimStart s).

(** [s.startsWith(p)] *)
Fixpoint startsWith (s p : jsstring) {struct p} : bool :=
  match p, s with
  | [], _ => true
  | _ :: _, [] => false
  | a :: p', b :: s' => (a =? b) && startsWith s' p'
  end.

(** [s.includes(sub)] *)
Fixpoint includes (s sub : jsstring) : bool :=
  startsWith s sub ||
  match s with
  | [] => false
  | _ :: s' => includes s' sub
  end.

(** Truthiness of a string: the empty string is the only falsy one. *)
Definition truthy (s : jsstring) : bool :=
  match s with [] => false | _ :: _ => true end.

(** [s.trim().length > 0] *)
Definition nonBlank (s : jsstring) : bool := truthy (trim s).

Definition eqb (s t : jsstring) : bool := bool_decide (s = t).

(** [parts.join(sep)] *)
Fixpoint join (sep : jsstring) (parts : list jsstring) : jsstring :=
  match parts with
  | [] => []
  | [p] => p
  | p :: ps => p ++ sep ++ join sep ps
  end.

(** Decimal rendering of a non-negative integer. *)
Fixpoint uintCodes (d : Decimal.uint) : jsstring :=
  match d with
  | Decimal.Nil => []
  | Decimal.D0 d => 48 :: uintCodes d
  | Decimal.D1 d => 49 :: uintCodes d
  | Decimal.D2 d => 50 :: uintCodes d
  | Decimal.D3 d => 51 :: uintCodes d
  | Decimal.D4 d => 52 :: uintCodes d
  | Decimal.D5 d => 53 :: uintCodes d
  | Decimal.D6 d => 54 :: uintCodes d
  | Decimal.D7 d => 55 :: uintCodes d
  | Decimal.D8 d => 56 :: uintCodes d
  | Decimal.D9 d => 57 :: uintCodes d
  end.

Definition ofN (n : N) : jsstring := uintCodes (N.to_uint n).

End JsString.

Import JsString.


Definition nl : jsstring := [10].
Definition space : jsstring := [32].
Definition leftBracket : N := 91.

(* ===================================================================== *)
(** * The persistence collaborator (Prisma models)                        *)
(* ===================================================================== *)

Inductive SessionStatus := RECORDING | PAUSED | PROCESSING | COMPLETED | FAILED.

Inductive RecordingMode := MIC | TAB.

Module TranscriptChunk.
Record t := mk {
  sessionId : jsstring;
  chunkIndex : N;
  transcript : jsstring;
  startTime : N;
  endTime : N
}.
Definition withTranscript (text : jsstring) (c : t) : t :=
  mk (sessionId c) (chunkIndex c) text (startTime c) (endTime c).
End TranscriptChunk.

(** The row of a session.  Its title, duration and timestamps play no
    part in what follows and are left out. *)
Module AppSession.
Record t := mk {
  userId : jsstring;
  recordingMode : RecordingMode;
  status : SessionStatus;
  transcript : option jsstring;
  summary : option jsstring
}.
Definition withTranscript (text : jsstring) (s : t) : t :=
  mk (userId s) (recordingMode s) (status s) (Some text) (summary s).
Definition withStatus (st : SessionStatus) (s : t) : t :=
  mk (userId s) (recordingMode s) st (transcript s) (summary s).
Definition withSummary (text : jsstring) (st : SessionStatus) (s : t) : t :=
  mk (userId s) (recordingMode s) st (transcript s) (Some text).
End AppSession.

Module Prisma.

(** The two tables.  Rows of [transcript_chunks] are kept in insertion
    order and identified by their position, which plays the part of the
    primary key [id]; the migration declares no uniqueness constraint
    on (sessionId, chunkIndex), so the list may hold duplicates.
    [sessions] is keyed by its primary key. *)
Record Db := mkDb {
  transcriptChunk : list TranscriptChunk.t;
  appSession : gmap jsstring AppSession.t
}.

Definition hasKey (sid : jsstring) (idx : N) (c : TranscriptChunk.t) : Prop :=
  TranscriptChunk.sessionId c = sid /\ TranscriptChunk.chunkIndex c = idx.

#[global] Instance hasKey_dec sid idx c : Decision (hasKey sid idx c).
Proof. unfold hasKey. apply _. Defined.

(** [prisma.transcriptChunk.findFirst({ where: { sessionId, chunkIndex } })]:
    without [orderBy], the first matching row in table order, with its
    position. *)
Definition findFirst (sid : jsstring) (idx : N) (rows : list TranscriptChunk.t)
  : option (nat * TranscriptChunk.t) :=
  list_find (hasKey sid idx) rows.

(** [prisma.transcriptChunk.update({ where: { id }, data: { transcript } })] *)
Definition updateTranscript (id : nat) (text : jsstring)
  (rows : list TranscriptChunk.t) : list TranscriptChunk.t :=
  alter (TranscriptChunk.withTranscript text) id rows.

(** [prisma.transcriptChunk.create({ data })] *)
Definition create (row : TranscriptChunk.t) (rows : list TranscriptChunk.t)
  : list TranscriptChunk.t :=
  rows ++ [row].

(** [prisma.transcriptChunk.findMany({ where: { sessionId } })] *)
Definition findMany (sid : jsstring) (rows : list TranscriptChunk.t)
  : list TranscriptChunk.t :=
  filter (fun c => TranscriptChunk.sessionId c = sid) rows.

(** The rows stored for one (sessionId, chunkIndex) pair. *)
Definition rowsFor (sid : jsstring) (idx : N) (rows : list TranscriptChunk.t)
  : list TranscriptChunk.t :=
  filter (hasKey sid idx) rows.

End Prisma.

Import Prisma.

(* ===================================================================== *)
(** * The running transcript (shared by both merge paths)                 *)
(* ===================================================================== *)

Module RunningTranscript.

(** The template [`[${startTime}s - ${endTime}s]`]. *)
Definition rangeHeader (startTime endTime : N) : jsstring :=
  lit "[" ++ ofN startTime ++ lit "s - " ++ ofN endTime ++ lit "s]".

(** The second capture group of the regular expression, "any number of
    characters other than the opening bracket": the longest run free of
    the opening bracket, and what is left behind it. *)
Fixpoint spanNoBracket (s : jsstring) : jsstring * jsstring :=
  match s with
  | [] => ([], [])
  | c :: s' =>
      if c =? leftBracket then ([], s)
      else let '(body, rest) := spanNoBracket s' in (c :: body, rest)
  end.

(** The replacement callback:
    [existingText.trim() ? `${existingText.trim()} ${text.trim()}` : text.trim()]
    behind [`${timeRange}\n`]. *)
Definition combinedText (existingText text : jsstring) : jsstring :=
  if truthy (trim existingText)
  then trim existingText ++ space ++ trim text
  else trim text.

(** [existingTranscript.replace(regex, callback)] for the global regular
    expression made of two groups, the literal header (digits need no
    escaping) and the bracket-free run behind it: scan left to right,
    and at every position where the header starts replace the header
    together with that run, resuming after the match.  The fuel bounds
    the number of characters still to be scanned. *)
Fixpoint replaceRange (fuel : nat) (hdr text s : jsstring) : jsstring :=
  match fuel with
  | O => s
  | S fuel' =>
      match s with
      | [] => []
      | c :: s' =>
          if startsWith s hdr then
            let '(body, rest) := spanNoBracket (drop (length hdr) s) in
            hdr ++ nl ++ combinedText body text ++ replaceRange fuel' hdr text rest
          else c :: replaceRange fuel' hdr text s'
      end
  end.

Definition replaceAll (hdr text s : jsstring) : jsstring :=
  replaceRange (length s) hdr text s.

(** The read-modify-write of [session.transcript] done by
    [processAudioChunk] and by the [transcript:chunk] handler. *)
Definition mergeTranscript (existingTranscript : jsstring)
  (startTime endTime : N) (text : jsstring) : jsstring :=
  let hdr := rangeHeader startTime endTime in
  if includes existingTranscript hdr
  then replaceAll hdr text existingTranscript
  else if truthy existingTranscript
       then existingTranscript ++ nl ++ nl ++ hdr ++ nl ++ text
       else hdr ++ nl ++ text.

(** [findUnique] the session, then [update] its transcript; a session
    that does not exist is left alone. *)
Definition updateSessionTranscript (sid : jsstring) (startTime endTime : N)
  (text : jsstring) (sessions : gmap jsstring AppSession.t)
  : gmap jsstring AppSession.t :=
  match sessions !! sid with
  | Some s =>
      let existingTranscript := default [] (AppSession.transcript s) in
      <[sid := AppSession.withTranscript
                 (mergeTranscript existingTranscript startTime endTime text) s]>
        sessions
  | None => sessions
  end.

End RunningTranscript.

Import RunningTranscript.

(* ===================================================================== *)
(** * Observable effects and thrown values                                *)
(* ===================================================================== *)

(** What a [catch] clause receives: an [Error] with its message, or any
    other value. *)
Inductive Thrown :=
| ErrorObject (message : jsstring)
| OtherValue.

(** How a promise settles. *)
Inductive Settled (A : Type) :=
| Resolved (value : A)
| Rejected (reason : Thrown).
Arguments Resolved {A} value.
Arguments Rejected {A} reason.

Inductive Backend := PrimaryBackend | SecondaryBackend.

(** The effects the properties speak about, in the order they happen. *)
Inductive Effect :=
| Invoked (b : Backend) (sessionId : jsstring) (chunkIndex : N)
    (* the back end's [streamAudioChunk] is entered *)
| GeminiWsSend (sessionId : jsstring) (chunkIndex : N)
    (* the audio message is put on the primary WebSocket *)
| RestFetch (sessionId : jsstring) (chunkIndex : N)
    (* the request to the generateContent endpoint is issued *)
| TranscriptUpdated (sessionId : jsstring) (transcript : jsstring) (chunkIndex : N)
    (* a [transcript:updated] event leaves through Socket.io *)
| SummaryRequested (fullTranscript : jsstring)
    (* the external text-completion service is called *)
| OtherEvent (event : jsstring).

(* ===================================================================== *)
(** * services/gemini-live-websocket.ts: the primary back end            *)
(* ===================================================================== *)

Module GeminiLiveWebsocket.

Inductive ReadyState := CONNECTING | OPEN | CLOSING | CLOSED.

#[global] Instance ReadyState_eq_dec : EqDecision ReadyState.
Proof. solve_decision. Defined.

Definition readyStateCode (r : ReadyState) : N :=
  match r with CONNECTING => 0 | OPEN => 1 | CLOSING => 2 | CLOSED => 3 end.

(** The fields of [LiveSessionConfig] the functions read or write.  The
    socket is known by its [readyState]; [None] is [null]. *)
Record LiveSessionConfig := mk {
  geminiWs : option ReadyState;
  transcriptBuffer : jsstring;
  chunkIndex : N;
  isConnected : bool
}.

(** [activeSessions], the module-level [Map]. *)
Abbreviation Registry := (gmap jsstring LiveSessionConfig).

(** [startLiveSession]: throws when GEMINI_API_KEY is not set or when
    the [WebSocket] constructor throws, else stores the session before
    the connection is established. *)
Definition startLiveSession (apiKeySet : bool) (constructorThrows : option Thrown)
  (sessionId : jsstring) (activeSessions : Registry) : Settled Registry :=
  if apiKeySet
  then match constructorThrows with
       | Some e => Rejected e
       | None =>
           Resolved (<[sessionId := mk (Some CONNECTING) [] 0 false]> activeSessions)
       end
  else Rejected (ErrorObject (lit "GEMINI_API_KEY is not set")).

(** The events of the socket created by [startLiveSession], as the [ws]
    library delivers them: it sets [readyState] (OPEN with [open],
    CLOSING with [error], CLOSED with [close]) and then runs the handler
    registered with [geminiWs.on].  A message is given by the transcript
    text its handler extracts from it, empty when there is none. *)
Inductive WsEvent :=
| EvOpen (setupSent : bool)   (* whether sending the setup message succeeded *)
| EvMessage (transcript : jsstring)
| EvError
| EvClose.

Definition appendBuffer (buffer transcript : jsstring) : jsstring :=
  buffer ++ (if truthy buffer then space else []) ++ transcript.

Definition withReadyState (r : ReadyState) (connected : bool)
  (c : LiveSessionConfig) : LiveSessionConfig :=
  mk ((fun _ => r) <$> geminiWs c) (transcriptBuffer c) (chunkIndex c) connected.

Definition onEvent (ev : WsEvent) (c : LiveSessionConfig) : LiveSessionConfig :=
  match ev with
  | EvOpen setupSent => withReadyState OPEN setupSent c
  | EvMessage transcript =>
      if nonBlank transcript
      then mk (geminiWs c) (appendBuffer (transcriptBuffer c) transcript)
              (chunkIndex c) (isConnected c)
      else c
  | EvError => withReadyState CLOSING false c
  | EvClose => withReadyState CLOSED false c
  end.

Definition deliver (sessionId : jsstring) (ev : WsEvent)
  (activeSessions : Registry) : Registry :=
  alter (onEvent ev) sessionId activeSessions.

(** [hasActiveSession] *)
Definition hasActiveSession (sessionId : jsstring) (activeSessions : Registry) : bool :=
  match activeSessions !! sessionId with
  | Some session =>
      isConnected session && bool_decide (geminiWs session <> None)
  | None => false
  end.

(** What the outside world does during one call of [streamAudioChunk]. *)
Record World := mkWorld {
  encodeThrows : option Thrown;   (* building the audio message throws *)
  sendThrows : option Thrown;     (* [geminiWs.send] throws *)
  incoming : list jsstring        (* transcript texts of the messages that
                                     arrive within the 15 seconds *)
}.

Definition placeholder (chunkIndex : N) (what : jsstring) : jsstring :=
  lit "[Chunk " ++ ofN chunkIndex ++ lit ": " ++ what ++ lit "]".

Definition messageOf (unknown : jsstring) (e : Thrown) : jsstring :=
  match e with ErrorObject m => m | OtherValue => unknown end.

(** The wait for the [transcript] event: the message handler runs for
    every incoming message and fires the event for the first one with
    content; without one the timer resolves the promise. *)
Fixpoint awaitTranscript (sessionId : jsstring) (chunkIndex : N)
  (session : LiveSessionConfig) (messages : list jsstring)
  : jsstring * LiveSessionConfig * list Effect :=
  match messages with
  | [] => (placeholder chunkIndex (lit "Timeout waiting for transcript"), session, [])
  | m :: rest =>
      if nonBlank m
      then (m, onEvent (EvMessage m) session,
            [TranscriptUpdated sessionId m (GeminiLiveWebsocket.chunkIndex session)])
      else awaitTranscript sessionId chunkIndex session rest
  end.

Definition withChunkIndex (i : N) (c : LiveSessionConfig) : LiveSessionConfig :=
  mk (geminiWs c) (transcriptBuffer c) i (isConnected c).

(** [streamAudioChunk] *)
Definition streamAudioChunk (w : World) (sessionId : jsstring) (chunkIndex : N)
  (activeSessions : Registry) : Settled jsstring * Registry * list Effect :=
  match activeSessions !! sessionId with
  | None => (Resolved (placeholder chunkIndex (lit "Session not found")), activeSessions, [])
  | Some session =>
      match geminiWs session with
      | None =>
          (Resolved (placeholder chunkIndex (lit "WebSocket not initialized")),
           activeSessions, [])
      | Some readyState =>
          if bool_decide (readyState <> OPEN) then
            (Resolved (placeholder chunkIndex
               (lit "WebSocket not connected (state: " ++ ofN (readyStateCode readyState)
                ++ lit ")")),
             activeSessions, [])
          else
            match encodeThrows w with
            | Some e =>
                (Resolved (placeholder chunkIndex
                   (lit "Error - " ++ messageOf (lit "Unknown error") e)),
                 activeSessions, [])
            | None =>
                match sendThrows w with
                | Some e =>
                    (Resolved (placeholder chunkIndex
                       (lit "Send error - " ++ messageOf (lit "Unknown") e)),
                     activeSessions, [])
                | None =>
                    let sent := withChunkIndex chunkIndex session in
                    let '(text, session', emitted) :=
                      awaitTranscript sessionId chunkIndex sent (incoming w) in
                    (Resolved text, <[sessionId := session']> activeSessions,
                     GeminiWsSend sessionId chunkIndex :: emitted)
                end
            end
      end
  end.

(** [stopLiveSession] *)
Definition stopLiveSession (sessionId : jsstring) (activeSessions : Registry) : Registry :=
  delete sessionId activeSessions.

(** [sendTurnComplete]: whether the turn-complete message is handed to
    the socket (an exception of [send] is caught and logged). *)
Definition sendTurnComplete (sessionId : jsstring) (activeSessions : Registry) : bool :=
  match activeSessions !! sessionId with
  | Some session => bool_decide (geminiWs session <> None) && isConnected session
  | None => false
  end.

(** [getActiveSessionCount] *)
Definition getActiveSessionCount (activeSessions : Registry) : nat :=
  size activeSessions.

(** [getSessionTranscript]: [session?.transcriptBuffer || ""] *)
Definition getSessionTranscript (sessionId : jsstring) (activeSessions : Registry)
  : jsstring :=
  match activeSessions !! sessionId with
  | Some session => transcriptBuffer session
  | None => []
  end.

End GeminiLiveWebsocket.

(* ===================================================================== *)
(** * services/gemini-live-rest.ts: the secondary back end               *)
(* ===================================================================== *)

Module GeminiLiveRest.

Record LiveSessionConfig := mk {
  transcriptBuffer : jsstring;
  chunkIndex : N
}.

Abbreviation Registry := (gmap jsstring LiveSessionConfig).

(** [startLiveSession] *)
Definition startLiveSession (apiKeySet : bool) (sessionId : jsstring)
  (activeSessions : Registry) : Settled Registry :=
  if apiKeySet
  then Resolved (<[sessionId := mk [] 0]> activeSessions)
  else Rejected (ErrorObject (lit "GEMINI_API_KEY is not set")).

(** [hasActiveSession] *)
Definition hasActiveSession (sessionId : jsstring) (activeSessions : Registry) : bool :=
  bool_decide (is_Some (activeSessions !! sessionId)).

(** [stopLiveSession] *)
Definition stopLiveSession (sessionId : jsstring) (activeSessions : Registry) : Registry :=
  delete sessionId activeSessions.

(** What the generateContent endpoint answers. *)
Inductive Response :=
| FetchFails (e : Thrown)                  (* [fetch] rejects *)
| NotOk (statusLine : jsstring)            (* [!response.ok] *)
| Ok (parts : option (list jsstring)).     (* the texts of the parts of the
                                              first candidate, when there *)

Record World := mkWorld {
  apiKeySet : bool;
  response : Response
}.

Definition placeholder (chunkIndex : N) (what : jsstring) : jsstring :=
  lit "[Chunk " ++ ofN chunkIndex ++ lit ": " ++ what ++ lit "]".

Definition transcriptionError (chunkIndex : N) (e : Thrown) : jsstring :=
  placeholder chunkIndex
    (lit "Transcription error - " ++
     match e with ErrorObject m => m | OtherValue => lit "Unknown error" end).

(** [streamAudioChunk] *)
Definition streamAudioChunk (w : World) (sessionId : jsstring) (chunkIndex : N)
  (activeSessions : Registry) : Settled jsstring * list Effect :=
  match activeSessions !! sessionId with
  | None => (Resolved (placeholder chunkIndex (lit "Session not found")), [])
  | Some session =>
      if negb (apiKeySet w) then
        (Resolved (transcriptionError chunkIndex
                     (ErrorObject (lit "GEMINI_API_KEY is not set"))), [])
      else
        match response w with
        | FetchFails e =>
            (Resolved (transcriptionError chunkIndex e), [RestFetch sessionId chunkIndex])
        | NotOk statusLine =>
            (Resolved (transcriptionError chunkIndex
                         (ErrorObject (lit "Gemini API error: " ++ statusLine))),
             [RestFetch sessionId chunkIndex])
        | Ok parts =>
            let transcript :=
              match parts with
              | Some texts => trim (join space texts)
              | None => []
              end in
            if truthy transcript then
              (Resolved transcript,
               [RestFetch sessionId chunkIndex;
                TranscriptUpdated sessionId transcript chunkIndex])
            else
              (Resolved (placeholder chunkIndex
                           (lit "No transcript returned from Gemini API")),
               [RestFetch sessionId chunkIndex])
        end
  end.

End GeminiLiveRest.

(* ===================================================================== *)
(** * services/gemini-live.ts: the module written before the two above   *)
(* ===================================================================== *)

Module GeminiLive.

Record LiveSession := mk {
  transcriptBuffer : jsstring;
  chunkIndex : N;
  startTime : N
}.

(** The module-level variables: [activeSessions], and whether the
    lazily created client [genAI] exists. *)
Record State := mkState {
  activeSessions : gmap jsstring LiveSession;
  genAI : bool
}.

Record World := mkWorld {
  apiKeySet : bool;
  encodeThrows : option Thrown   (* the base64 encoding of the audio throws *)
}.

Definition placeholder (chunkIndex : N) (what : jsstring) : jsstring :=
  lit "[Chunk " ++ ofN chunkIndex ++ lit ": " ++ what ++ lit "]".

Definition errorText (e : Thrown) : jsstring :=
  lit "Error - " ++ match e with ErrorObject m => m | OtherValue => lit "Unknown error" end.

(** [streamAudioChunkToGemini]: the session is looked up, the client is
    created on first use ([getGenAI] throws without an API key), the
    audio is encoded, and a fixed text is returned; whatever is thrown
    on the way is turned into a text by the outer [catch]. *)
Definition streamAudioChunkToGemini (w : World) (sessionId : jsstring)
  (chunkIndex startTime endTime : N) (st : State) : jsstring * State :=
  match activeSessions st !! sessionId with
  | None => (placeholder chunkIndex (lit "Live API session not active"), st)
  | Some _ =>
      if genAI st || apiKeySet w then
        let st := mkState (activeSessions st) true in
        match encodeThrows w with
        | Some e => (placeholder chunkIndex (errorText e), st)
        | None =>
            (placeholder chunkIndex
               (lit "Gemini Live API transcription - Audio chunk from " ++ ofN startTime
                ++ lit "s to " ++ ofN endTime
                ++ lit "s. Live API integration requires REST API or Python SDK."),
             st)
        end
      else
        (placeholder chunkIndex
           (errorText (ErrorObject (lit "GEMINI_API_KEY is not set in environment variables"))),
         st)
  end.

End GeminiLive.

(* ===================================================================== *)
(** * lib/gemini.ts: the summary service                                  *)
(* ===================================================================== *)

Module Gemini.

(** What the environment and the remote model do: [generateContent]
    stands for the request and the reading of the text of its answer,
    either of which may throw. *)
Record World := mkWorld {
  apiKeySet : bool;
  generateContent : jsstring -> Settled jsstring
}.

(** The template literal of [generateSummary]. *)
Definition prompt (transcript : jsstring) : jsstring :=
  lit "Summarize this meeting transcript. Include:" ++ nl
  ++ lit "1. Key points discussed" ++ nl
  ++ lit "2. Action items" ++ nl
  ++ lit "3. Decisions made" ++ nl
  ++ lit "4. Important deadlines or dates" ++ nl ++ nl
  ++ lit "Transcript:" ++ nl
  ++ transcript ++ nl ++ nl
  ++ lit "Provide a concise summary:".

Definition failedToGenerate : Thrown :=
  ErrorObject (lit "Failed to generate summary").

(** [generateSummary]; [genAI] tells whether the lazily created client
    exists before the call, the second component whether it does
    after.  [getGenAI] is called inside the [try], so a missing API key
    is reported like any other failure. *)
Definition generateSummary (w : World) (genAI : bool) (transcript : jsstring)
  : Settled jsstring * bool :=
  if genAI || apiKeySet w then
    match generateContent w (prompt transcript) with
    | Resolved text => (Resolved text, true)
    | Rejected _ => (Rejected failedToGenerate, true)
    end
  else (Rejected failedToGenerate, false).

End Gemini.

(* ===================================================================== *)
(** * The state of the server process                                     *)
(* ===================================================================== *)

Module SessionMetadata.
Record t := mk {
  recordingMode : jsstring;
  chunkDuration : N
}.
End SessionMetadata.

Record Server := mkServer {
  db : Db;
  websocketSessions : GeminiLiveWebsocket.Registry;
  restSessions : GeminiLiveRest.Registry;
  sessionMetadata : gmap jsstring SessionMetadata.t
}.

Definition withDb (d : Db) (s : Server) : Server :=
  mkServer d (websocketSessions s) (restSessions s) (sessionMetadata s).

Definition withWebsocketSessions (r : GeminiLiveWebsocket.Registry) (s : Server) : Server :=
  mkServer (db s) r (restSessions s) (sessionMetadata s).

(** What the two remote services do during one chunk. *)
Record World := mkWorld {
  primary : GeminiLiveWebsocket.World;
  secondary : GeminiLiveRest.World
}.

(* ===================================================================== *)
(** * services/transcription.ts                                           *)
(* ===================================================================== *)

Module Transcription.

Record AudioChunk := mk {
  sessionId : jsstring;
  chunkIndex : N;
  audioData : list N;
  startTime : N;
  endTime : N
}.

(** The test on the text of the secondary back end when no session
    exists (lines 54-61). *)
Definition acceptedDirect (transcribed : jsstring) : bool :=
  truthy transcribed && nonBlank transcribed
  && negb (includes transcribed (lit "[Chunk"))
  && negb (includes transcribed (lit "Session not found"))
  && negb (includes transcribed (lit "Transcription error"))
  && negb (includes transcribed (lit "No transcript")).

(** The test on the text of the primary back end (lines 85-93). *)
Definition acceptedPrimary (transcribed : jsstring) : bool :=
  truthy transcribed && nonBlank transcribed
  && negb (includes transcribed (lit "[Chunk"))
  && negb (includes transcribed (lit "Session not found"))
  && negb (includes transcribed (lit "Transcription error"))
  && negb (includes transcribed (lit "WebSocket not connected"))
  && negb (includes transcribed (lit "Timeout")).

(** The test on the text of the secondary back end used as a fallback
    (lines 109-114 and 139-144). *)
Definition acceptedFallback (restTranscribed : jsstring) : bool :=
  truthy restTranscribed && nonBlank restTranscribed
  && negb (includes restTranscribed (lit "[Chunk"))
  && negb (includes restTranscribed (lit "No transcript")).

(** [isPlaceholder] (lines 158-161). *)
Definition isPlaceholder (finalTranscript : jsstring) : bool :=
  includes finalTranscript (lit "Transcription via Web Speech API")
  || includes finalTranscript (lit "Audio chunk")
  || includes finalTranscript (lit "No speech detected")
  || includes finalTranscript (lit "Transcription failed").

(** The per-chunk record: create the row, or replace the text of the
    row found when it differs (lines 164-193). *)
Definition storeChunk (chunk : AudioChunk) (finalTranscript : jsstring)
  (rows : list TranscriptChunk.t) : list TranscriptChunk.t :=
  match findFirst (sessionId chunk) (chunkIndex chunk) rows with
  | Some (id, existingChunk) =>
      if bool_decide (TranscriptChunk.transcript existingChunk <> finalTranscript)
      then updateTranscript id finalTranscript rows
      else rows
  | None =>
      create (TranscriptChunk.mk (sessionId chunk) (chunkIndex chunk) finalTranscript
                (startTime chunk) (endTime chunk)) rows
  end.

(** Lines 163-241: the per-chunk record, then the running transcript. *)
Definition store (chunk : AudioChunk) (finalTranscript : jsstring) (d : Db) : Db :=
  mkDb (storeChunk chunk finalTranscript (transcriptChunk d))
       (updateSessionTranscript (sessionId chunk) (startTime chunk) (endTime chunk)
          finalTranscript (appSession d)).

(** The fallback to the secondary back end, written twice in the source
    (after a placeholder of the primary and in its [catch] clause). *)
Definition restFallback (w : World) (chunk : AudioChunk) (s : Server)
  : option jsstring * list Effect :=
  let '(settled, effects) :=
    GeminiLiveRest.streamAudioChunk (secondary w) (sessionId chunk) (chunkIndex chunk)
      (restSessions s) in
  let effects := Invoked SecondaryBackend (sessionId chunk) (chunkIndex chunk) :: effects in
  match settled with
  | Resolved restTranscribed =>
      if acceptedFallback restTranscribed then (Some restTranscribed, effects)
      else (None, effects)
  | Rejected _ => (None, effects)
  end.

(** Lines 24-155: which text, if any, becomes [finalTranscript]. *)
Definition transcribe (w : World) (chunk : AudioChunk) (s : Server)
  : option jsstring * GeminiLiveWebsocket.Registry * list Effect :=
  let websocketSessionExists :=
    GeminiLiveWebsocket.hasActiveSession (sessionId chunk) (websocketSessions s) in
  let restSessionExists :=
    GeminiLiveRest.hasActiveSession (sessionId chunk) (restSessions s) in
  let sessionExists := websocketSessionExists || restSessionExists in
  if negb sessionExists then
    let '(settled, effects) :=
      GeminiLiveRest.streamAudioChunk (secondary w) (sessionId chunk) (chunkIndex chunk)
        (restSessions s) in
    let effects := Invoked SecondaryBackend (sessionId chunk) (chunkIndex chunk) :: effects in
    match settled with
    | Resolved transcribed =>
        if acceptedDirect transcribed
        then (Some transcribed, websocketSessions s, effects)
        else (None, websocketSessions s, effects)
    | Rejected _ => (None, websocketSessions s, effects)
    end
  else
    let '(settled, registry, effects) :=
      GeminiLiveWebsocket.streamAudioChunk (primary w) (sessionId chunk) (chunkIndex chunk)
        (websocketSessions s) in
    let effects := Invoked PrimaryBackend (sessionId chunk) (chunkIndex chunk) :: effects in
    match settled with
    | Resolved transcribed =>
        if acceptedPrimary transcribed
        then (Some transcribed, registry, effects)
        else
          let '(final, more) := restFallback w chunk s in
          (final, registry, effects ++ more)
    | Rejected _ =>
        let '(final, more) := restFallback w chunk s in
        (final, registry, effects ++ more)
    end.

(** [processAudioChunk] *)
Definition processAudioChunk (w : World) (chunk : AudioChunk) (s : Server)
  : Server * list Effect :=
  let '(final, registry, effects) := transcribe w chunk s in
  let s := withWebsocketSessions registry s in
  match final with
  | None => (s, effects)
  | Some finalTranscript =>
      if isPlaceholder finalTranscript then (s, effects)
      else (withDb (store chunk finalTranscript (db s)) s, effects)
  end.

(** The test of [hasRealTranscript] on one chunk (lines 271-281). *)
Definition realTranscript (chunk : TranscriptChunk.t) : bool :=
  let text := trim (TranscriptChunk.transcript chunk) in
  truthy text
  && negb (startsWith text (lit "["))
  && negb (includes text (lit "Audio transcription service not configured"))
  && negb (includes text (lit "Transcription failed"))
  && negb (includes text (lit "No speech detected"))
  && negb (includes text (lit "browser-based transcription placeholder")).

Definition byChunkIndex (a b : TranscriptChunk.t) : Prop :=
  (TranscriptChunk.chunkIndex a <= TranscriptChunk.chunkIndex b)%N.

#[global] Instance byChunkIndex_dec a b : Decision (byChunkIndex a b).
Proof. unfold byChunkIndex. apply _. Defined.

(** [findMany({ where: { sessionId }, orderBy: { chunkIndex: "asc" } })] *)
Definition chunksOf (sid : jsstring) (d : Db) : list TranscriptChunk.t :=
  merge_sort byChunkIndex (findMany sid (transcriptChunk d)).

Definition fullTranscriptOf (chunks : list TranscriptChunk.t) : jsstring :=
  join (nl ++ nl)
    (map (fun chunk =>
            rangeHeader (TranscriptChunk.startTime chunk) (TranscriptChunk.endTime chunk)
            ++ nl ++ TranscriptChunk.transcript chunk) chunks).

Definition noTranscriptAvailable : jsstring :=
  lit "No transcript available. Audio transcription service needs to be configured to generate summaries.".

(** [prisma.appSession.update({ where: { id }, data })]: throws when no
    such session exists. *)
Definition updateSession (sid : jsstring) (f : AppSession.t -> AppSession.t)
  (d : Db) : Settled Db :=
  match appSession d !! sid with
  | Some s => Resolved (mkDb (transcriptChunk d) (<[sid := f s]> (appSession d)))
  | None => Rejected (ErrorObject (lit "Record to update not found."))
  end.

(** The [catch] clause of [generateSessionSummary]: mark the session
    failed and throw the error again. *)
Definition markFailed (sid : jsstring) (error : Thrown) (d : Db) : Settled jsstring * Db :=
  match updateSession sid (AppSession.withStatus FAILED) d with
  | Resolved d' => (Rejected error, d')
  | Rejected e => (Rejected e, d)
  end.

(** [generateSessionSummary]; [generateSummary] is the external
    text-completion collaborator. *)
Definition generateSessionSummary (generateSummary : jsstring -> Settled jsstring)
  (sid : jsstring) (d : Db) : Settled jsstring * Db * list Effect :=
  let chunks := chunksOf sid d in
  let fullTranscript := fullTranscriptOf chunks in
  let hasRealTranscript := existsb realTranscript chunks in
  let '(attempt, effects) :=
    if hasRealTranscript && nonBlank fullTranscript
    then (generateSummary fullTranscript, [SummaryRequested fullTranscript])
    else (Resolved noTranscriptAvailable, []) in
  match attempt with
  | Resolved summary =>
      match updateSession sid (AppSession.withSummary summary COMPLETED) d with
      | Resolved d' => (Resolved summary, d', effects)
      | Rejected e => (markFailed sid e d, effects)
      end
  | Rejected e => (markFailed sid e d, effects)
  end.

End Transcription.

(* ===================================================================== *)
(** * The server entry point: Socket.io handlers and the audio stream     *)
(* ===================================================================== *)

Module ServerIndex.

(** The guard [!sessionId || sessionId.trim() === ""] refuses exactly
    the blank identifiers. *)
Definition validSessionId (sessionId : jsstring) : bool := nonBlank sessionId.

(** [sendAudioChunk], the raw audio-stream path. *)
Definition sendAudioChunk (w : World) (audioBuffer : list N) (chunkIndex : N)
  (sessionId : jsstring) (s : Server) : Server * list Effect :=
  let chunkDuration := 30 in
  let startTime := chunkIndex * chunkDuration in
  let endTime := startTime + chunkDuration in
  let '(s', effects) :=
    Transcription.processAudioChunk w
      (Transcription.mk sessionId chunkIndex audioBuffer startTime endTime) s in
  (s', OtherEvent (lit "audio:chunk") :: effects).

(** The variables [handleAudioWebSocket] closes over. *)
Record AudioStream := mkAudioStream {
  chunkIndex : N;
  audioBuffer : list N;
  lastChunkTime : N;
  sessionStarted : bool
}.

Definition CHUNK_DURATION_MS : N := 30000.

(** What arrives on the audio WebSocket; [now] is [Date.now()] at the
    time a binary message is handled. *)
Inductive AudioMessage :=
| MsgStart
| MsgStop
| MsgChunkMetadata
| MsgBinary (data : list N) (now : N)
| MsgClose.

(** One message: the new closure state and the chunk handed to
    [sendAudioChunk], if any. *)
Definition bufferStep (m : AudioMessage) (a : AudioStream)
  : AudioStream * option (list N * N) :=
  match m with
  | MsgStart => (mkAudioStream (chunkIndex a) (audioBuffer a) (lastChunkTime a) true, None)
  | MsgStop =>
      if truthy (audioBuffer a)
      then (mkAudioStream (chunkIndex a + 1) [] (lastChunkTime a) (sessionStarted a),
            Some (audioBuffer a, chunkIndex a))
      else (a, None)
  | MsgChunkMetadata => (a, None)
  | MsgBinary data now =>
      let buffer := audioBuffer a ++ data in
      if ((CHUNK_DURATION_MS <=? now - lastChunkTime a)
          || (500000 <? N.of_nat (length buffer)))
         && truthy buffer && sessionStarted a
      then (mkAudioStream (chunkIndex a + 1) [] now (sessionStarted a),
            Some (buffer, chunkIndex a))
      else (mkAudioStream (chunkIndex a) buffer (lastChunkTime a) (sessionStarted a), None)
  | MsgClose =>
      if truthy (audioBuffer a) && sessionStarted a
      then (mkAudioStream (chunkIndex a + 1) (audioBuffer a) (lastChunkTime a)
              (sessionStarted a),
            Some (audioBuffer a, chunkIndex a))
      else (a, None)
  end.


(** [handleAudioWebSocket] on one message. *)
Definition onAudioMessage (w : World) (sessionId : jsstring) (m : AudioMessage)
  (a : AudioStream) (s : Server) : AudioStream * Server * list Effect :=
  let '(a', out) := bufferStep m a in
  match out with
  | Some (buffer, index) =>
      let '(s', effects) := sendAudioChunk w buffer index sessionId s in
      (a', s', effects)
  | None => (a', s, [])
  end.

(** What [session:start] needs from the environment. *)
Record StartWorld := mkStartWorld {
  apiKeySet : bool;
  constructorThrows : option Thrown
}.

(** The [session:start] handler. *)
Definition onSessionStart (sw : StartWorld) (sessionId recordingMode : jsstring)
  (s : Server) : Server * list Effect :=
  if negb (validSessionId sessionId) then (s, [OtherEvent (lit "session:error")])
  else
    let chunkDuration := if bool_decide (recordingMode = lit "TAB") then 5 else 30 in
    let metadata :=
      <[sessionId := SessionMetadata.mk recordingMode chunkDuration]> (sessionMetadata s) in
    let s :=
      match GeminiLiveWebsocket.startLiveSession (apiKeySet sw) (constructorThrows sw)
              sessionId (websocketSessions s) with
      | Resolved registry =>
          mkServer (db s) registry (restSessions s) metadata
      | Rejected _ =>
          match GeminiLiveRest.startLiveSession (apiKeySet sw) sessionId (restSessions s) with
          | Resolved registry => mkServer (db s) (websocketSessions s) registry metadata
          | Rejected _ => mkServer (db s) (websocketSessions s) (restSessions s) metadata
          end
      end in
    (s, [OtherEvent (lit "session:started")]).

(** [metadata?.chunkDuration || 30] *)
Definition chunkDurationOf (metadata : option SessionMetadata.t) : N :=
  match metadata with
  | Some m => if SessionMetadata.chunkDuration m =? 0 then 30
              else SessionMetadata.chunkDuration m
  | None => 30
  end.

(** The chunk the [audio:chunk] handler passes to [processAudioChunk]. *)
Definition audioChunkOf (sessionId : jsstring) (audioData : list N) (chunkIndex : N)
  (s : Server) : Transcription.AudioChunk :=
  let chunkDuration := chunkDurationOf (sessionMetadata s !! sessionId) in
  let startTime := chunkIndex * chunkDuration in
  let endTime := startTime + chunkDuration in
  Transcription.mk sessionId chunkIndex audioData startTime endTime.

(** The [audio:chunk] handler, with the continuation that reports the
    stored row. *)
Definition onAudioChunk (w : World) (sessionId : jsstring) (audioData : list N)
  (chunkIndex : N) (s : Server) : Server * list Effect :=
  if negb (validSessionId sessionId) then (s, [OtherEvent (lit "audio:error")])
  else
    let '(s', effects) :=
      Transcription.processAudioChunk w (audioChunkOf sessionId audioData chunkIndex s) s in
    let reported :=
      match findFirst sessionId chunkIndex (transcriptChunk (db s')) with
      | Some (_, chunk) =>
          if negb (includes (TranscriptChunk.transcript chunk)
                     (lit "Transcription via Web Speech API"))
             && negb (includes (TranscriptChunk.transcript chunk) (lit "Audio chunk"))
          then [TranscriptUpdated sessionId (TranscriptChunk.transcript chunk) chunkIndex]
          else []
      | None => []
      end in
    (s', [OtherEvent (lit "audio:received"); OtherEvent (lit "audio:received")]
         ++ effects ++ reported).

(** The [session:pause] and [session:resume] handlers only notify the
    room. *)
Definition onSessionPause (sessionId : jsstring) (s : Server) : Server * list Effect :=
  (s, [OtherEvent (lit "session:paused")]).

Definition onSessionResume (sessionId : jsstring) (s : Server) : Server * list Effect :=
  (s, [OtherEvent (lit "session:resumed")]).

(** The filter at the head of the [transcript:chunk] handler.  Its last
    disjunct in the source is a regular expression every match of which
    contains "Audio chunk", the second disjunct. *)
Definition isPlaceholder (transcript : jsstring) : bool :=
  includes transcript (lit "Transcription via Web Speech API")
  || includes transcript (lit "Audio chunk")
  || includes transcript (lit "recorded from")
  || includes transcript (lit "No speech detected")
  || includes transcript (lit "Transcription failed").

Definition isPlaceholderMessage (transcript : jsstring) : bool :=
  includes transcript (lit "Transcription via Web Speech API")
  || includes transcript (lit "Audio chunk")
  || includes transcript (lit "No speech detected")
  || includes transcript (lit "Transcription failed").

(** The [transcript:chunk] handler. *)
Definition onTranscriptChunk (sessionId transcript : jsstring) (chunkIndex : N)
  (s : Server) : Server * list Effect :=
  if negb (validSessionId sessionId) then (s, [])
  else if isPlaceholder transcript then (s, [])
  else
    let chunkDuration := 30 in
    let startTime := chunkIndex * chunkDuration in
    let endTime := startTime + chunkDuration in
    let rows := transcriptChunk (db s) in
    let stored :=
      match findFirst sessionId chunkIndex rows with
      | Some (id, existingChunk) =>
          let existingText := trim (TranscriptChunk.transcript existingChunk) in
          let newText := trim transcript in
          if includes existingText newText then None
          else
            let updatedTranscript :=
              if truthy existingText then existingText ++ space ++ newText else newText in
            Some (updateTranscript id (trim updatedTranscript) rows)
      | None =>
          Some (create (TranscriptChunk.mk sessionId chunkIndex (trim transcript)
                          startTime endTime) rows)
      end in
    match stored with
    | None => (s, [])
    | Some rows' =>
        let sessions :=
          updateSessionTranscript sessionId startTime endTime transcript
            (appSession (db s)) in
        (withDb (mkDb rows' sessions) s,
         if negb (isPlaceholderMessage transcript)
         then [TranscriptUpdated sessionId transcript chunkIndex;
               TranscriptUpdated sessionId transcript chunkIndex]
         else [])
    end.

(** The [session:stop] handler. *)
Definition onSessionStop (sessionId : jsstring) (s : Server) : Server * list Effect :=
  (mkServer (db s)
     (GeminiLiveWebsocket.stopLiveSession sessionId (websocketSessions s))
     (GeminiLiveRest.stopLiveSession sessionId (restSessions s))
     (delete sessionId (sessionMetadata s)),
   [OtherEvent (lit "session:stopped")]).

(** The [transcript:update] handler passes the text on to the room. *)
Definition onTranscriptUpdate (sessionId transcript : jsstring) (chunkIndex : N)
  (s : Server) : Server * list Effect :=
  (s, [TranscriptUpdated sessionId transcript chunkIndex]).

(** What reaches the server: the Socket.io events of a client, each
    with what the outside world does while it is handled, and the chunks
    the audio-stream path hands to [sendAudioChunk]. *)
Inductive ClientEvent :=
| SessionStartEv (sw : StartWorld) (sessionId recordingMode : jsstring)
| AudioChunkEv (w : World) (sessionId : jsstring) (audioData : list N) (chunkIndex : N)
| SessionPauseEv (sessionId : jsstring)
| SessionResumeEv (sessionId : jsstring)
| TranscriptChunkEv (sessionId transcript : jsstring) (chunkIndex : N)
| SessionStopEv (sessionId : jsstring)
| TranscriptUpdateEv (sessionId transcript : jsstring) (chunkIndex : N)
| StreamedChunk (w : World) (audioBuffer : list N) (chunkIndex : N) (sessionId : jsstring).

(** The handler registered for each of them. *)
Definition handle (e : ClientEvent) (s : Server) : Server * list Effect :=
  match e with
  | SessionStartEv sw sessionId recordingMode =>
      onSessionStart sw sessionId recordingMode s
  | AudioChunkEv w sessionId audioData chunkIndex =>
      onAudioChunk w sessionId audioData chunkIndex s
  | SessionPauseEv sessionId => onSessionPause sessionId s
  | SessionResumeEv sessionId => onSessionResume sessionId s
  | TranscriptChunkEv sessionId transcript chunkIndex =>
      onTranscriptChunk sessionId transcript chunkIndex s
  | SessionStopEv sessionId => onSessionStop sessionId s
  | TranscriptUpdateEv sessionId transcript chunkIndex =>
      onTranscriptUpdate sessionId transcript chunkIndex s
  | StreamedChunk w audioBuffer chunkIndex sessionId =>
      sendAudioChunk w audioBuffer chunkIndex sessionId s
  end.

(** The events handled one after the other. *)
Fixpoint handleAll (es : list ClientEvent) (s : Server) : Server * list Effect :=
  match es with
  | [] => (s, [])
  | e :: es' =>
      let '(s', effects) := handle e s in
      let '(s'', more) := handleAll es' s' in
      (s'', effects ++ more)
  end.

End ServerIndex.

(* ===================================================================== *)
(** * app/api/sessions/[id]/stop/route.ts                                 *)
(* ===================================================================== *)

Module StopRoute.

Record Request := mkRequest {
  user : option jsstring;   (* the authenticated user, if any *)
  id : jsstring
}.

Inductive Response :=
| Success                   (* 200, "Session stopped. Summary generation started." *)
| Failure (status : N).

(** Work started and not awaited. *)
Inductive Background :=
| SummaryGeneration (sessionId : jsstring).

(** [POST] *)
Definition POST (request : Request) (d : Db) : Response * Db * list Background :=
  match user request with
  | None => (Failure 401, d, [])
  | Some currentUser =>
      if negb (truthy (id request)) then (Failure 400, d, [])
      else
        match appSession d !! id request with
        | None => (Failure 404, d, [])
        | Some existingSession =>
            if bool_decide (AppSession.userId existingSession <> currentUser)
            then (Failure 403, d, [])
            else
              match Transcription.updateSession (id request)
                      (AppSession.withStatus PROCESSING) d with
              | Resolved d' => (Success, d', [SummaryGeneration (id request)])
              | Rejected _ => (Failure 500, d, [])
              end
        end
  end.


End StopRoute.

(* ===================================================================== *)
(** * app/api/sessions/[id]/route.ts                                      *)
(* ===================================================================== *)

Module SessionRoute.

Inductive Response :=
| SessionJson (session : AppSession.t) (transcriptChunks : list TranscriptChunk.t)
| Success
| Failure (status : N).

(** [GET]: the session with its chunks in ascending [chunkIndex] order
    (the [user] object joined to the answer is left out). *)
Definition GET (request : StopRoute.Request) (d : Db) : Response :=
  match StopRoute.user request with
  | None => Failure 401
  | Some currentUser =>
      match appSession d !! StopRoute.id request with
      | None => Failure 404
      | Some appSession =>
          if bool_decide (AppSession.userId appSession <> currentUser)
          then Failure 403
          else SessionJson appSession (Transcription.chunksOf (StopRoute.id request) d)
      end
  end.

(** [prisma.appSession.delete({ where: { id } })]: the foreign key of
    [transcript_chunks] is declared ON DELETE CASCADE in the migration,
    so the chunks of the session go with it. *)
Definition deleteSession (id : jsstring) (d : Db) : Db :=
  mkDb (filter (fun chunk => TranscriptChunk.sessionId chunk <> id) (transcriptChunk d))
       (delete id (appSession d)).

(** [DELETE] *)
Definition DELETE (request : StopRoute.Request) (d : Db) : Response * Db :=
  match StopRoute.user request with
  | None => (Failure 401, d)
  | Some currentUser =>
      match appSession d !! StopRoute.id request with
      | None => (Failure 404, d)
      | Some existingSession =>
          if bool_decide (AppSession.userId existingSession <> currentUser)
          then (Failure 403, d)
          else (Success, deleteSession (StopRoute.id request) d)
      end
  end.

End SessionRoute.

(* ===================================================================== *)
(** * hooks/use-speech-recognition.ts: the recording hook                 *)
(* ===================================================================== *)

Module UseRecording.

(** [array.length > 0] *)
Definition nonEmpty {A : Type} (l : list A) : bool :=
  match l with [] => false | _ :: _ => true end.

(** The refs the [ondataavailable] handler reads and writes. *)
Record Refs := mkRefs {
  chunkIndexRef : N;
  audioChunksRef : list (list N);
  isPausedRef : bool;
  sessionIdRef : jsstring
}.

(** The payload of an [audio:chunk] event sent to the server. *)
Record AudioChunkEvent := mkEvent {
  sessionId : jsstring;
  audioData : list N;
  chunkIndex : N
}.

(** [mediaRecorder.ondataavailable] *)
Definition ondataavailable (data : list N) (r : Refs) : Refs * list AudioChunkEvent :=
  if truthy data then
    let chunks := audioChunksRef r ++ [data] in
    if negb (isPausedRef r) && nonEmpty chunks
    then (mkRefs (chunkIndexRef r + 1) [] (isPausedRef r) (sessionIdRef r),
          [mkEvent (sessionIdRef r) (concat chunks) (chunkIndexRef r)])
    else (mkRefs (chunkIndexRef r) chunks (isPausedRef r) (sessionIdRef r), [])
  else (r, []).

(** [mediaRecorder.onpause] and [mediaRecorder.onresume] *)
Definition onpause (r : Refs) : Refs :=
  mkRefs (chunkIndexRef r) (audioChunksRef r) true (sessionIdRef r).

Definition onresume (r : Refs) : Refs :=
  mkRefs (chunkIndexRef r) (audioChunksRef r) false (sessionIdRef r).

(** The part of [stopRecording] that sends what is left. *)
Definition stopRecording (r : Refs) : Refs * list AudioChunkEvent :=
  if nonEmpty (audioChunksRef r)
  then (mkRefs (chunkIndexRef r + 1) [] false (sessionIdRef r),
        [mkEvent (sessionIdRef r) (concat (audioChunksRef r)) (chunkIndexRef r)])
  else (mkRefs (chunkIndexRef r) [] false (sessionIdRef r), []).

Inductive RecorderEvent :=
| DataAvailable (data : list N)
| Pause
| Resume.

Definition step (e : RecorderEvent) (r : Refs) : Refs * list AudioChunkEvent :=
  match e with
  | DataAvailable data => ondataavailable data r
  | Pause => (onpause r, [])
  | Resume => (onresume r, [])
  end.

Fixpoint run (es : list RecorderEvent) (r : Refs) : Refs * list AudioChunkEvent :=
  match es with
  | [] => (r, [])
  | e :: es' =>
      let '(r', out) := step e r in
      let '(r'', outs) := run es' r' in
      (r'', out ++ outs)
  end.


(** ** The speech recognition handler (MIC mode) *)

(** The refs of the hook: those above, and those the [onresult] handler
    of the Web Speech API uses besides. *)
Record SpeechRefs := mkSpeechRefs {
  refs : Refs;
  transcriptBufferRef : jsstring;
  isRecordingRef : bool;
  recordingStartTimeRef : N
}.

(** One entry of [event.results]: [results[i][0].transcript] and
    [results[i].isFinal]. *)
Record SpeechResult := mkResult {
  transcript : jsstring;
  isFinal : bool
}.

(** What the handler does to the outside. *)
Inductive SpeechEffect :=
| Displayed (text : jsstring) (chunkIndex : N)
    (* the [onTranscriptUpdate] callback is called *)
| TranscriptChunkSent (sessionId text : jsstring) (chunkIndex : N).
    (* a [transcript:chunk] event is sent to the server *)

(** The loop over the results: the interim text seen last, and the
    final texts, each followed by a space. *)
Definition scanResults (results : list SpeechResult) : jsstring * jsstring :=
  foldl (fun acc result =>
           if isFinal result
           then (fst acc, snd acc ++ transcript result ++ space)
           else (transcript result, snd acc))
        ([], []) results.

(** [recognition.onresult]; [hasCallback] tells whether the caller of
    the hook passed [onTranscriptUpdate], [now] is [Date.now()]. *)
Definition onresult (hasCallback : bool) (resultIndex : nat)
  (results : list SpeechResult) (now : N) (r : SpeechRefs)
  : SpeechRefs * list SpeechEffect :=
  if isPausedRef (refs r) then (r, [])
  else if negb (isRecordingRef r) then (r, [])
  else
    let '(interimTranscript, finalTranscript) := scanResults (drop resultIndex results) in
    let recordingTime :=
      if 0 <? recordingStartTimeRef r then now - recordingStartTimeRef r else 0 in
    let chunkIndex := recordingTime / 30000 in
    let interim :=
      if truthy (trim interimTranscript) && hasCallback then
        Displayed (trim interimTranscript) chunkIndex
        :: (if recordingTime <? 10000
            then [TranscriptChunkSent (sessionIdRef (refs r)) (trim interimTranscript) 0]
            else [])
      else [] in
    if truthy (trim finalTranscript) then
      let buffer :=
        transcriptBufferRef r
        ++ (if truthy (transcriptBufferRef r) then space else [])
        ++ trim finalTranscript in
      let finalText := trim buffer in
      let shown := if hasCallback then [Displayed finalText chunkIndex] else [] in
      if truthy finalText
      then (mkSpeechRefs (refs r) [] (isRecordingRef r) (recordingStartTimeRef r),
            interim ++ shown
            ++ [TranscriptChunkSent (sessionIdRef (refs r)) finalText chunkIndex])
      else (mkSpeechRefs (refs r) buffer (isRecordingRef r) (recordingStartTimeRef r),
            interim ++ shown)
    else (r, interim).

(** A sequence of result events, each with its time. *)
Fixpoint onresults (hasCallback : bool) (events : list (nat * list SpeechResult * N))
  (r : SpeechRefs) : SpeechRefs * list SpeechEffect :=
  match events with
  | [] => (r, [])
  | (resultIndex, results, now) :: events' =>
      let '(r', out) := onresult hasCallback resultIndex results now r in
      let '(r'', outs) := onresults hasCallback events' r' in
      (r'', out ++ outs)
  end.

End UseRecording.

(* ===================================================================== *)
(** * The dashboard page: the list of live transcript chunks              *)
(* ===================================================================== *)

Module Dashboard.

(** An element of the [transcriptChunks] state. *)
Record Chunk := mkChunk {
  index : N;
  text : jsstring;
  timestamp : N
}.

(** The filter of the [onTranscriptUpdate] callback.  Its last disjunct
    in the source is a regular expression every match of which contains
    "Audio chunk", the second disjunct. *)
Definition isPlaceholder (transcriptText : jsstring) : bool :=
  includes transcriptText (lit "Transcription via Web Speech API")
  || includes transcriptText (lit "Audio chunk")
  || includes transcriptText (lit "recorded from").

(** The state update of the [onTranscriptUpdate] callback passed to the
    recording hook; [timestamp] is [Date.now()]. *)
Definition onTranscriptUpdate (transcriptText : jsstring) (chunkIndex timestamp : N)
  (prev : list Chunk) : list Chunk :=
  if isPlaceholder transcriptText then prev
  else
    match list_find (fun chunk => index chunk = chunkIndex) prev with
    | Some (existingIndex, existing) =>
        if bool_decide (trim transcriptText <> trim (text existing))
           && truthy (trim transcriptText)
        then <[existingIndex := mkChunk chunkIndex transcriptText timestamp]> prev
        else prev
    | None =>
        if truthy (trim transcriptText)
        then prev ++ [mkChunk chunkIndex transcriptText timestamp]
        else prev
    end.

End Dashboard.

(* ===================================================================== *)
(** * Auxiliary definitions used to state the properties                  *)
(* ===================================================================== *)

(** The text the [transcript:chunk] handler builds for a row it found,
    before the final [trim]. *)
Definition appended (text : jsstring) (existing : TranscriptChunk.t) : jsstring :=
  if truthy (trim (TranscriptChunk.transcript existing))
  then trim (TranscriptChunk.transcript existing) ++ space ++ trim text
  else trim text.

(** The running transcript as the specification words it: a sequence of
    blocks, each a range and a text; merging joins the new text onto the
    text of the block with that range, in place, or appends a new block;
    blocks are written one after the other, a blank line between them. *)
Module BlockSpec.




End BlockSpec.






(** The failure modes of the primary [streamAudioChunk]: unknown
    session, socket missing or not open, an exception while the message
    is built, a send error, or no transcript event before the timer. *)
Definition failureMode (w : GeminiLiveWebsocket.World) (sessionId : jsstring)
  (activeSessions : GeminiLiveWebsocket.Registry) : Prop :=
  match activeSessions !! sessionId with
  | None => True
  | Some session =>
      GeminiLiveWebsocket.geminiWs session <> Some GeminiLiveWebsocket.OPEN
      \/ GeminiLiveWebsocket.encodeThrows w <> None
      \/ GeminiLiveWebsocket.sendThrows w <> None
      \/ Forall (fun m => nonBlank m = false) (GeminiLiveWebsocket.incoming w)
  end.

(** A bracketed placeholder that begins with "[Chunk " and the index. *)
Definition chunkPlaceholder (chunkIndex : N) (text : jsstring) : Prop :=
  exists what, text = lit "[Chunk " ++ ofN chunkIndex ++ what ++ lit "]".


(** No open primary connection: no registry entry, no socket, or a
    socket that is not open. *)
Definition noOpenSocket (sessionId : jsstring)
  (activeSessions : GeminiLiveWebsocket.Registry) : Prop :=
  forall session, activeSessions !! sessionId = Some session ->
    GeminiLiveWebsocket.geminiWs session <> Some GeminiLiveWebsocket.OPEN.

(** What each back end answers for a chunk. *)
Definition primaryAnswer (w : World) (chunk : Transcription.AudioChunk) (s : Server)
  : Settled jsstring :=
  fst (fst (GeminiLiveWebsocket.streamAudioChunk (primary w)
              (Transcription.sessionId chunk) (Transcription.chunkIndex chunk)
              (websocketSessions s))).

Definition secondaryAnswer (w : World) (chunk : Transcription.AudioChunk) (s : Server)
  : Settled jsstring :=
  fst (GeminiLiveRest.streamAudioChunk (secondary w)
         (Transcription.sessionId chunk) (Transcription.chunkIndex chunk)
         (restSessions s)).


(** A back end fails for a chunk when its promise rejects or resolves
    with a blank text or one of the "[Chunk ...]" placeholders. *)
Definition failed (answer : Settled jsstring) : Prop :=
  match answer with
  | Resolved text => nonBlank text = false \/ includes text (lit "[Chunk") = true
  | Rejected _ => True
  end.

(** The text [processAudioChunk] settles on, if any. *)
Definition transcriptionResult (w : World) (chunk : Transcription.AudioChunk)
  (s : Server) : option jsstring :=
  fst (fst (Transcription.transcribe w chunk s)).

(** The events of the socket of one session, delivered in order. *)
Definition deliverEvents (sessionId : jsstring)
  (events : list GeminiLiveWebsocket.WsEvent)
  (activeSessions : GeminiLiveWebsocket.Registry) : GeminiLiveWebsocket.Registry :=
  foldl (fun registry ev => GeminiLiveWebsocket.deliver sessionId ev registry)
        activeSessions events.

(** The transcript texts with content among the events. *)
Definition transcriptsOf (events : list GeminiLiveWebsocket.WsEvent) : list jsstring :=
  omap (fun ev =>
          match ev with
          | GeminiLiveWebsocket.EvMessage transcript =>
              if nonBlank transcript then Some transcript else None
          | _ => None
          end) events.

(** An event other than the [open] of the socket. *)
Definition notOpen (ev : GeminiLiveWebsocket.WsEvent) : Prop :=
  forall setupSent, ev <> GeminiLiveWebsocket.EvOpen setupSent.

(** At most one row for every (sessionId, chunkIndex) pair. *)
Definition uniqueKeys (rows : list TranscriptChunk.t) : Prop :=
  forall sid idx, (length (rowsFor sid idx rows) <= 1)%nat.

(** Two rows that differ at most in their text. *)
Definition sameButText (a b : TranscriptChunk.t) : Prop :=
  TranscriptChunk.sessionId a = TranscriptChunk.sessionId b
  /\ TranscriptChunk.chunkIndex a = TranscriptChunk.chunkIndex b
  /\ TranscriptChunk.startTime a = TranscriptChunk.startTime b
  /\ TranscriptChunk.endTime a = TranscriptChunk.endTime b.

(** Every row of [rows] is still there in [rows'], at its place, with
    at most its text changed. *)
Definition rowsKept (rows rows' : list TranscriptChunk.t) : Prop :=
  forall i row, rows !! i = Some row ->
    exists row', rows' !! i = Some row' /\ sameButText row row'.

(** Two session rows that differ at most in their running transcript. *)
Definition sameButTranscript (a b : AppSession.t) : Prop :=
  AppSession.userId a = AppSession.userId b
  /\ AppSession.recordingMode a = AppSession.recordingMode b
  /\ AppSession.status a = AppSession.status b
  /\ AppSession.summary a = AppSession.summary b.

(** The same sessions, each with at most its running transcript
    changed. *)
Definition sessionsKept (sessions sessions' : gmap jsstring AppSession.t) : Prop :=
  forall sid,
    match sessions !! sid, sessions' !! sid with
    | Some a, Some b => sameButTranscript a b
    | None, None => True
    | _, _ => False
    end.

(** What a handler may do to the database: it keeps the pairs unique,
    the rows and the sessions. *)
Definition dbKept (d d' : Db) : Prop :=
  (uniqueKeys (transcriptChunk d) -> uniqueKeys (transcriptChunk d'))
  /\ rowsKept (transcriptChunk d) (transcriptChunk d')
  /\ sessionsKept (appSession d) (appSession d').

(** What the speech handler of the hook may send or display [elapsed]
    milliseconds after the start of the recording: a [transcript:chunk]
    event carries the session of the hook, a text that is not empty and
    has no white space at either end, and the index of the 30-second
    interval [elapsed] falls in. *)
Definition sentWithin (sessionId : jsstring) (elapsed : N)
  (e : UseRecording.SpeechEffect) : Prop :=
  match e with
  | UseRecording.TranscriptChunkSent sid text idx =>
      sid = sessionId /\ text <> [] /\ trim text = text
      /\ idx * 30000 <= elapsed < (idx + 1) * 30000
  | UseRecording.Displayed text idx => text <> [] /\ trim text = text
  end.

(** An entry of the list of live chunks the dashboard may show: its
    text is not blank and is not one of the placeholder messages. *)
Definition displayable (chunk : Dashboard.Chunk) : Prop :=
  nonBlank (Dashboard.text chunk) = true
  /\ Dashboard.isPlaceholder (Dashboard.text chunk) = false.


(** The bytes the recorder hands to the hook, in order. *)
Definition recordedData (es : list UseRecording.RecorderEvent) : list N :=
  concat (omap (fun e => match e with
                         | UseRecording.DataAvailable data => Some data
                         | _ => None
                         end) es).

Example lit_hello : lit "[0s]" = [91; 48; 115; 93].
Proof. reflexivity. Qed.

Example trim_example : trim (lit "  a b ") = lit "a b".
Proof. reflexivity. Qed.

Example ofN_example : ofN 30 = lit "30" /\ ofN 0 = lit "0".
Proof. split; reflexivity. Qed.

Example merge_example :
  mergeTranscript (mergeTranscript [] 0 30 (lit "hello")) 0 30 (lit "world")
  = lit "[0s - 30s]" ++ nl ++ lit "hello world".
Proof. vm_compute. reflexivity. Qed.

(* ===================================================================== *)
(** * Facts about JavaScript strings                                      *)
(* ===================================================================== *)

Section StringFacts.

Implicit Types s p sub a b : jsstring.

Lemma startsWith_spec s p : startsWith s p = true <-> exists r, s = p ++ r.
Proof.
  revert s; induction p as [|x p IH]; intros s; simpl.
  - split; [intros _; exists s; reflexivity | reflexivity].
  - destruct s as [|y s]; simpl.
    + split; [discriminate | intros [r Hr]; discriminate].
    + rewrite andb_true_iff, N.eqb_eq, IH. split.
      * intros [-> [r ->]]. exists r. reflexivity.
      * intros [r Hr]. injection Hr as -> ->. split; [reflexivity | eauto].
Qed.

Lemma startsWith_app p r : startsWith (p ++ r) p = true.
Proof. apply startsWith_spec. eauto. Qed.

Lemma includes_spec s sub : includes s sub = true <-> exists a b, s = a ++ sub ++ b.
Proof.
  induction s as [|c s IH].
  - simpl. rewrite orb_false_r, startsWith_spec. split.
    + intros [r Hr]. exists [], r. exact Hr.
    + intros [a [b H]]. destruct a; [eauto | discriminate].
  - cbn [includes]. rewrite orb_true_iff, IH, startsWith_spec. split.
    + intros [[r Hr] | [a [b Hab]]].
      * exists [], r. exact Hr.
      * exists (c :: a), b. rewrite Hab. reflexivity.
    + intros [a [b Hab]]. destruct a as [|d a].
      * left. exists b. exact Hab.
      * right. injection Hab as _ ->. eauto.
Qed.

Lemma includes_nil s : includes s [] = true.
Proof. apply includes_spec. exists [], s. reflexivity. Qed.


Lemma includes_app_mid a sub b : includes (a ++ sub ++ b) sub = true.
Proof. apply includes_spec. eauto. Qed.

Lemma includes_false_nil sub : sub <> [] -> includes [] sub = false.
Proof. destruct sub; [congruence | reflexivity]. Qed.

(** [trimStart] drops a prefix; what it keeps starts with a character
    that is not white space. *)
Lemma trimStart_split s : exists ws, s = ws ++ trimStart s.
Proof.
  induction s as [|c s [ws IH]]; simpl.
  - exists []. reflexivity.
  - destruct (isWhiteSpace c).
    + exists (c :: ws). simpl. f_equal. exact IH.
    + exists []. reflexivity.
Qed.

Lemma trimStart_head s c r : trimStart s = c :: r -> isWhiteSpace c = false.
Proof.
  induction s as [|d s IH]; simpl; [discriminate|].
  destruct (isWhiteSpace d) eqn:Hd; [exact IH|].
  intros H. injection H as <- _. exact Hd.
Qed.

Lemma trimStart_keeps s c r :
  isWhiteSpace c = false -> trimStart (c :: r) = c :: r.
Proof. intros H. simpl. rewrite H. reflexivity. Qed.

Lemma trimEnd_split s : exists ws, s = trimEnd s ++ ws.
Proof.
  unfold trimEnd. destruct (trimStart_split (rev s)) as [ws Hws].
  exists (rev ws). rewrite <- rev_app_distr, <- Hws, rev_involutive. reflexivity.
Qed.

(** A factor that starts with a visible character survives [trimStart]. *)
Lemma trimStart_factor a c x b :
  isWhiteSpace c = false ->
  exists a', trimStart (a ++ (c :: x) ++ b) = a' ++ (c :: x) ++ b.
Proof.
  intros Hc. induction a as [|d a [a' IH]]; simpl.
  - rewrite Hc. exists []. reflexivity.
  - destruct (isWhiteSpace d).
    + exists a'. exact IH.
    + exists (d :: a). reflexivity.
Qed.

(** ... and one that ends with a visible character survives [trimEnd]. *)
Lemma trimEnd_factor a x c b :
  isWhiteSpace c = false ->
  exists b', trimEnd (a ++ (x ++ [c]) ++ b) = a ++ (x ++ [c]) ++ b'.
Proof.
  intros Hc. unfold trimEnd.
  rewrite !rev_app_distr. simpl. rewrite <- !app_assoc. simpl.
  destruct (trimStart_factor (rev b) c (rev x) (rev a) Hc) as [b' Hb'].
  simpl in Hb'. rewrite Hb'.
  exists (rev b').
  rewrite !rev_app_distr. simpl. rewrite !rev_app_distr, !rev_involutive. simpl.
  rewrite <- !app_assoc. reflexivity.
Qed.

Lemma trim_head s c r : trim s = c :: r -> isWhiteSpace c = false.
Proof.
  unfold trim. intros H.
  destruct (trimEnd_split (trimStart s)) as [ws Hws].
  rewrite H in Hws. simpl in Hws.
  apply (trimStart_head s c (r ++ ws)). exact Hws.
Qed.

Lemma trim_last s r c : trim s = r ++ [c] -> isWhiteSpace c = false.
Proof.
  unfold trim, trimEnd. intros H.
  apply (f_equal (@rev N)) in H. rewrite rev_involutive, rev_app_distr in H.
  simpl in H. exact (trimStart_head _ _ _ H).
Qed.

Lemma trim_factor s : exists a b, s = a ++ trim s ++ b.
Proof.
  destruct (trimStart_split s) as [a Ha].
  destruct (trimEnd_split (trimStart s)) as [b Hb].
  exists a, b. unfold trim. rewrite <- Hb. exact Ha.
Qed.

(** Trimming both strings keeps an inclusion. *)
Lemma includes_trim s sub :
  includes s sub = true -> includes (trim s) (trim sub) = true.
Proof.
  intros H. apply includes_spec in H. destruct H as [a [b ->]].
  destruct (trim_factor sub) as [a0 [b0 Hsub]].
  destruct (trim sub) as [|c x] eqn:Ht; [apply includes_nil|].
  assert (Hc : isWhiteSpace c = false) by exact (trim_head _ _ _ Ht).
  destruct (exists_last (l := c :: x)) as [y [z Hyz]]; [discriminate|].
  assert (Hz : isWhiteSpace z = false).
  { apply (trim_last sub y). rewrite Ht. exact Hyz. }
  rewrite Hsub. rewrite <- !app_assoc.
  replace (a ++ a0 ++ (c :: x) ++ b0 ++ b) with ((a ++ a0) ++ (c :: x) ++ (b0 ++ b))
    by (rewrite <- !app_assoc; reflexivity).
  unfold trim.
  destruct (trimStart_factor (a ++ a0) c x (b0 ++ b) Hc) as [a' ->].
  rewrite Hyz.
  destruct (trimEnd_factor a' y z (b0 ++ b) Hz) as [b' ->].
  apply includes_app_mid.
Qed.

End StringFacts.

Lemma trimStart_visible s c r : s = c :: r -> isWhiteSpace c = false -> trimStart s = s.
Proof. intros -> H. simpl. rewrite H. reflexivity. Qed.

(** [trim] is idempotent. *)
Lemma trim_idem (s : jsstring) : trim (trim s) = trim s.
Proof.
  destruct (trim s) as [|c r] eqn:Ht; [reflexivity|].
  pose proof (trim_head _ _ _ Ht) as Hc.
  destruct (exists_last (l := c :: r)) as [y [z Hyz]]; [discriminate|].
  assert (Hz : isWhiteSpace z = false).
  { apply (trim_last s y). rewrite Ht. exact Hyz. }
  unfold trim. rewrite (trimStart_visible (c :: r) c r eq_refl Hc).
  unfold trimEnd. rewrite Hyz, rev_app_distr. simpl. rewrite Hz.
  simpl. rewrite rev_involutive. reflexivity.
Qed.

(* ===================================================================== *)
(** * Facts about the chunk table                                         *)
(* ===================================================================== *)

Section TableFacts.

Variables (sid : jsstring) (idx : N).

#[local] Arguments findFirst : simpl never.
#[local] Arguments rowsFor : simpl never.

Implicit Types rows : list TranscriptChunk.t.

Lemma hasKey_withTranscript text c :
  hasKey sid idx (TranscriptChunk.withTranscript text c) <-> hasKey sid idx c.
Proof. unfold hasKey. destruct c; simpl. reflexivity. Qed.

Lemma findFirst_cons c rows :
  findFirst sid idx (c :: rows) =
  if decide (hasKey sid idx c) then Some (0%nat, c)
  else prod_map S id <$> findFirst sid idx rows.
Proof. reflexivity. Qed.

Lemma rowsFor_cons c rows :
  rowsFor sid idx (c :: rows) =
  if decide (hasKey sid idx c) then c :: rowsFor sid idx rows
  else rowsFor sid idx rows.
Proof. unfold rowsFor. rewrite filter_cons. reflexivity. Qed.

Lemma findFirst_None_rowsFor rows :
  findFirst sid idx rows = None -> rowsFor sid idx rows = [].
Proof.
  induction rows as [|c rows IH]; [reflexivity|].
  rewrite findFirst_cons, rowsFor_cons.
  destruct (decide (hasKey sid idx c)); [discriminate|].
  destruct (findFirst sid idx rows); [discriminate|]. intros _. apply IH. reflexivity.
Qed.

Lemma findFirst_Some_key rows i c :
  findFirst sid idx rows = Some (i, c) -> hasKey sid idx c.
Proof.
  revert i; induction rows as [|d rows IH]; intros i; [discriminate|].
  rewrite findFirst_cons. destruct (decide (hasKey sid idx d)) as [Hd|Hd].
  - intros H. injection H as _ <-. exact Hd.
  - destruct (findFirst sid idx rows) as [[j e]|]; [|discriminate].
    simpl. intros H. injection H as _ <-. exact (IH j eq_refl).
Qed.




(** A row created when none was found is the row found afterwards. *)
Lemma findFirst_create rows c :
  hasKey sid idx c ->
  findFirst sid idx rows = None ->
  findFirst sid idx (create c rows) = Some (length rows, c).
Proof.
  intros Hc. unfold create.
  induction rows as [|d rows IH].
  - intros _. change (findFirst sid idx [c] = Some (0%nat, c)).
    rewrite findFirst_cons, decide_True by exact Hc. reflexivity.
  - change ((d :: rows) ++ [c]) with (d :: (rows ++ [c])).
    rewrite !findFirst_cons.
    destruct (decide (hasKey sid idx d)) as [Hd|Hd]; [discriminate|].
    destruct (findFirst sid idx rows) eqn:Hf; [discriminate|]. intros _.
    rewrite (IH eq_refl). reflexivity.
Qed.


End TableFacts.

(** A string whose first and last characters are visible is its own
    trimmed form. *)
Lemma trim_fixed (s r y : jsstring) (c z : N) :
  s = c :: r -> s = y ++ [z] ->
  isWhiteSpace c = false -> isWhiteSpace z = false -> trim s = s.
Proof.
  intros Hs Hl Hc Hz. unfold trim. rewrite (trimStart_visible s c r Hs Hc).
  unfold trimEnd. rewrite Hl at 1. rewrite rev_app_distr. simpl. rewrite Hz.
  change (z :: rev y) with (rev [z] ++ rev y). rewrite <- rev_app_distr, rev_involutive.
  symmetry. exact Hl.
Qed.

Lemma trim_joined (e n : jsstring) :
  trim e <> [] -> trim n <> [] ->
  trim (trim e ++ space ++ trim n) = trim e ++ space ++ trim n.
Proof.
  intros He Hn.
  destruct (trim e) as [|c r] eqn:Ee; [congruence|].
  destruct (exists_last Hn) as [y [z Hyz]].
  apply (trim_fixed _ (r ++ space ++ trim n) ((c :: r) ++ space ++ y) c z).
  - reflexivity.
  - rewrite Hyz. rewrite <- !app_assoc. reflexivity.
  - exact (trim_head _ _ _ Ee).
  - exact (trim_last n y z Hyz).
Qed.

Lemma includes_false_nonempty (s sub : jsstring) : includes s sub = false -> sub <> [].
Proof. intros H ->. rewrite includes_nil in H. discriminate. Qed.

(* ===================================================================== *)
(** * The per-chunk record on the two merge paths                         *)
(* ===================================================================== *)

Section ChunkRecord.

#[local] Arguments findFirst : simpl never.
#[local] Arguments rowsFor : simpl never.
#[local] Arguments updateTranscript : simpl never.
#[local] Arguments create : simpl never.





End ChunkRecord.

Section TranscriptChunkPath.

#[local] Arguments findFirst : simpl never.
#[local] Arguments rowsFor : simpl never.
#[local] Arguments updateTranscript : simpl never.
#[local] Arguments create : simpl never.
#[local] Arguments includes : simpl never.
#[local] Arguments trim : simpl never.

Variables (sid text : jsstring) (idx : N).


Lemma onTranscriptChunk_update s i existing :
  ServerIndex.validSessionId sid = true ->
  ServerIndex.isPlaceholder text = false ->
  findFirst sid idx (transcriptChunk (db s)) = Some (i, existing) ->
  includes (trim (TranscriptChunk.transcript existing)) (trim text) = false ->
  transcriptChunk (db (fst (ServerIndex.onTranscriptChunk sid text idx s)))
  = updateTranscript i (trim (appended text existing)) (transcriptChunk (db s)).
Proof.
  intros Hv Hp Hf Hin. unfold ServerIndex.onTranscriptChunk.
  rewrite Hv, Hp, Hf. simpl. rewrite Hin. reflexivity.
Qed.

Lemma onTranscriptChunk_create s :
  ServerIndex.validSessionId sid = true ->
  ServerIndex.isPlaceholder text = false ->
  findFirst sid idx (transcriptChunk (db s)) = None ->
  transcriptChunk (db (fst (ServerIndex.onTranscriptChunk sid text idx s)))
  = create (TranscriptChunk.mk sid idx (trim text) (idx * 30) (idx * 30 + 30))
      (transcriptChunk (db s)).
Proof.
  intros Hv Hp Hf. unfold ServerIndex.onTranscriptChunk.
  rewrite Hv, Hp, Hf. reflexivity.
Qed.





End TranscriptChunkPath.

(* ===================================================================== *)
(** * C1 and C2: the per-chunk merge                                      *)
(* ===================================================================== *)



(** C2, as stated, fails on both paths: with "hello" stored and "world"
    incoming, the [transcript:chunk] path appends ("hello world") where
    the claim says it replaces, and the back-end path replaces ("world")
    where the claim says it appends. *)
Lemma C2_paths_are_the_other_way_round :
  let stored := TranscriptChunk.mk (lit "s1") 0 (lit "hello") 0 30 in
  let s := mkServer (mkDb [stored] ∅) ∅ ∅ ∅ in
  let chunk := Transcription.mk (lit "s1") 0 [] 0 30 in
  transcriptChunk (db (fst (ServerIndex.onTranscriptChunk (lit "s1") (lit "world") 0 s)))
  = [TranscriptChunk.mk (lit "s1") 0 (lit "hello world") 0 30]
  /\ Transcription.storeChunk chunk (lit "world") [stored]
     = [TranscriptChunk.mk (lit "s1") 0 (lit "world") 0 30].
Proof. vm_compute. split; reflexivity. Qed.

(** C2, amended.  For a merge into an existing row: on the
    [transcript:chunk] path, when the trimmed stored text does not
    contain the trimmed incoming text, the trimmed incoming text is
    appended to the trimmed stored text with a single space (and stands
    alone when the stored text is blank); on the back-end path
    ([processAudioChunk]), when the stored text differs from the
    incoming text, the stored text is replaced by it. *)
Theorem C2_append_on_client_path_replace_on_backend_path :
  (forall sid text idx s i existing,
      ServerIndex.validSessionId sid = true ->
      ServerIndex.isPlaceholder text = false ->
      findFirst sid idx (transcriptChunk (db s)) = Some (i, existing) ->
      includes (trim (TranscriptChunk.transcript existing)) (trim text) = false ->
      transcriptChunk (db (fst (ServerIndex.onTranscriptChunk sid text idx s)))
      = updateTranscript i
          (if truthy (trim (TranscriptChunk.transcript existing))
           then trim (TranscriptChunk.transcript existing) ++ space ++ trim text
           else trim text)
          (transcriptChunk (db s)))
  /\ (forall chunk text rows i existing,
      findFirst (Transcription.sessionId chunk) (Transcription.chunkIndex chunk) rows
      = Some (i, existing) ->
      TranscriptChunk.transcript existing <> text ->
      Transcription.storeChunk chunk text rows = updateTranscript i text rows).
Proof.
  split.
  - intros sid text idx s i existing Hv Hp Hf Hin.
    rewrite (onTranscriptChunk_update sid text idx s i existing Hv Hp Hf Hin).
    f_equal. unfold appended.
    destruct (trim (TranscriptChunk.transcript existing)) as [|c r] eqn:He.
    + simpl. apply trim_idem.
    + cbn [truthy]. rewrite <- He. apply trim_joined.
      * rewrite He. discriminate.
      * exact (includes_false_nonempty _ _ Hin).
  - intros chunk text rows i existing Hf Hne.
    unfold Transcription.storeChunk. rewrite Hf.
    rewrite bool_decide_eq_true_2 by exact Hne. reflexivity.
Qed.


Lemma C2_append_on_client_path_replace_on_backend_path_witness :
  let stored := TranscriptChunk.mk (lit "s1") 0 (lit "hello") 0 30 in
  let s := mkServer (mkDb [stored] ∅) ∅ ∅ ∅ in
  transcriptChunk (db (fst (ServerIndex.onTranscriptChunk (lit "s1") (lit "world") 0 s)))
  = updateTranscript 0 (lit "hello" ++ space ++ lit "world") [stored].
Proof.
  intros stored s.
  apply (proj1 C2_append_on_client_path_replace_on_backend_path
           (lit "s1") (lit "world") 0 s 0%nat stored); reflexivity.
Defined.

(* ===================================================================== *)
(** * C3: the running transcript                                          *)
(* ===================================================================== *)

Section RunningTranscriptFacts.

#[local] Arguments startsWith : simpl never.
#[local] Arguments includes : simpl never.
#[local] Arguments combinedText : simpl never.

Variables (hdr text : jsstring).








End RunningTranscriptFacts.







(** Two consequences of the replacement worth knowing: the run that is
    replaced takes the blank line in front of the next block with it,
    and a text merged twice for the same range stands twice in the
    block. *)
Example merge_swallows_separator :
  mergeTranscript (lit "[0s - 30s]" ++ nl ++ lit "hello" ++ nl ++ nl ++ lit "[30s - 60s]"
                   ++ nl ++ lit "next") 0 30 (lit "world")
  = lit "[0s - 30s]" ++ nl ++ lit "hello world[30s - 60s]" ++ nl ++ lit "next".
Proof. vm_compute. reflexivity. Qed.

Example merge_twice_repeats_text :
  mergeTranscript (mergeTranscript [] 0 30 (lit "hello")) 0 30 (lit "hello")
  = lit "[0s - 30s]" ++ nl ++ lit "hello hello".
Proof. vm_compute. reflexivity. Qed.

(* ===================================================================== *)
(** * C4: chunk indices and time ranges                                   *)
(* ===================================================================== *)

Section Indexing.

#[local] Arguments findFirst : simpl never.
#[local] Arguments create : simpl never.
#[local] Arguments updateTranscript : simpl never.








End Indexing.




(** A TAB session served by the secondary back end: the audio chunk
    with index 1 is stored with the range 5-10. *)
Example tab_audio_chunk_range :
  let started :=
    fst (ServerIndex.onSessionStart (ServerIndex.mkStartWorld true (Some OtherValue))
           (lit "s1") (lit "TAB") (mkServer (mkDb [] ∅) ∅ ∅ ∅)) in
  let w := mkWorld (GeminiLiveWebsocket.mkWorld None None [])
                   (GeminiLiveRest.mkWorld true (GeminiLiveRest.Ok (Some [lit "hello"]))) in
  transcriptChunk (db (fst (ServerIndex.onAudioChunk w (lit "s1") [1; 2; 3] 1 started)))
  = [TranscriptChunk.mk (lit "s1") 1 (lit "hello") 5 10].
Proof. vm_compute. reflexivity. Qed.

(* ===================================================================== *)
(** * C8: pause                                                           *)
(* ===================================================================== *)




(** What the hook was handed during the pause is kept in its buffer and
    leaves with the first chunk sent after the pause. *)
Example paused_data_leaves_after_resume :
  let paused := UseRecording.onpause (UseRecording.mkRefs 3 [] false (lit "s1")) in
  let '(held, sent) := UseRecording.ondataavailable [1; 2; 3] paused in
  sent = []
  /\ UseRecording.ondataavailable [4] (UseRecording.onresume held)
     = (UseRecording.mkRefs 4 [] false (lit "s1"),
        [UseRecording.mkEvent (lit "s1") [1; 2; 3; 4] 3]).
Proof. vm_compute. split; reflexivity. Qed.

(* ===================================================================== *)
(** * C10: the primary back end never rejects                             *)
(* ===================================================================== *)

Lemma placeholder_chunkPlaceholder idx what :
  chunkPlaceholder idx (GeminiLiveWebsocket.placeholder idx what).
Proof.
  exists (lit ": " ++ what). unfold GeminiLiveWebsocket.placeholder.
  rewrite <- !app_assoc. reflexivity.
Qed.

Lemma awaitTranscript_timeout sid idx session messages :
  Forall (fun m => nonBlank m = false) messages ->
  GeminiLiveWebsocket.awaitTranscript sid idx session messages
  = (GeminiLiveWebsocket.placeholder idx (lit "Timeout waiting for transcript"),
     session, []).
Proof.
  induction 1 as [|m messages Hm _ IH]; [reflexivity|].
  cbn [GeminiLiveWebsocket.awaitTranscript]. rewrite Hm. exact IH.
Qed.

(** A branch that returns a placeholder at once. *)
Ltac resolves_with_placeholder :=
  eexists; split; [reflexivity | intros _; apply placeholder_chunkPlaceholder].

(** C10.  For every input the primary [streamAudioChunk] resolves with
    a string, it never rejects; and in every failure mode (unknown
    session, socket missing or not open, exception while the message is
    built, send error, no transcript event within the 15 seconds) that
    string is a bracketed placeholder that begins with "[Chunk "
    followed by the chunk index. *)
Theorem C10_streamAudioChunk_always_resolves :
  forall w sessionId chunkIndex activeSessions,
  exists text,
    fst (fst (GeminiLiveWebsocket.streamAudioChunk w sessionId chunkIndex activeSessions))
    = Resolved text
    /\ (failureMode w sessionId activeSessions -> chunkPlaceholder chunkIndex text).
Proof.
  intros w sid idx reg.
  unfold GeminiLiveWebsocket.streamAudioChunk, failureMode.
  destruct (reg !! sid) as [session|]; [|resolves_with_placeholder].
  destruct (GeminiLiveWebsocket.geminiWs session) as [readyState|];
    [|resolves_with_placeholder].
  case_bool_decide as Hopen; [resolves_with_placeholder|].
  destruct (GeminiLiveWebsocket.encodeThrows w) as [e|]; [resolves_with_placeholder|].
  destruct (GeminiLiveWebsocket.sendThrows w) as [e|]; [resolves_with_placeholder|].
  destruct (GeminiLiveWebsocket.awaitTranscript sid idx _ (GeminiLiveWebsocket.incoming w))
    as [[text session'] emitted] eqn:Hawait.
  exists text. split; [reflexivity|].
  intros [Hws | [He | [Hs | Hblank]]].
  - exfalso. apply Hws. f_equal. destruct (decide (readyState = GeminiLiveWebsocket.OPEN));
      [assumption | contradiction].
  - congruence.
  - congruence.
  - rewrite (awaitTranscript_timeout _ _ _ _ Hblank) in Hawait.
    injection Hawait as <- _ _. apply placeholder_chunkPlaceholder.
Qed.

(* ===================================================================== *)
(** * C7: stop and summary                                                *)
(* ===================================================================== *)

Section Summary.

Variable generateSummary : jsstring -> Settled jsstring.

Lemma updateSession_found sid f d session :
  appSession d !! sid = Some session ->
  Transcription.updateSession sid f d
  = Resolved (mkDb (transcriptChunk d) (<[sid := f session]> (appSession d))).
Proof. intros H. unfold Transcription.updateSession. rewrite H. reflexivity. Qed.



End Summary.



(* ===================================================================== *)
(** * The back-end selector                                               *)
(* ===================================================================== *)

Section Selector.

#[local] Arguments includes : simpl never.
#[local] Arguments nonBlank : simpl never.

Lemma placeholder_includes_chunk idx what :
  includes (GeminiLiveWebsocket.placeholder idx what) (lit "[Chunk") = true.
Proof.
  apply includes_spec. exists [], (lit " " ++ ofN idx ++ lit ": " ++ what ++ lit "]").
  reflexivity.
Qed.

Lemma acceptedPrimary_sound text :
  Transcription.acceptedPrimary text = true ->
  nonBlank text = true /\ includes text (lit "[Chunk") = false.
Proof.
  unfold Transcription.acceptedPrimary. rewrite !andb_true_iff, !negb_true_iff. tauto.
Qed.

Lemma acceptedDirect_sound text :
  Transcription.acceptedDirect text = true ->
  nonBlank text = true /\ includes text (lit "[Chunk") = false.
Proof.
  unfold Transcription.acceptedDirect. rewrite !andb_true_iff, !negb_true_iff. tauto.
Qed.

Lemma acceptedFallback_sound text :
  Transcription.acceptedFallback text = true ->
  nonBlank text = true /\ includes text (lit "[Chunk") = false.
Proof.
  unfold Transcription.acceptedFallback. rewrite !andb_true_iff, !negb_true_iff. tauto.
Qed.



(** Without an open socket the primary back end answers with a
    placeholder and touches nothing. *)
Lemma streamAudioChunk_refuses w sid idx registry :
  noOpenSocket sid registry ->
  exists what,
    GeminiLiveWebsocket.streamAudioChunk w sid idx registry
    = (Resolved (GeminiLiveWebsocket.placeholder idx what), registry, []).
Proof.
  intros Hno. unfold GeminiLiveWebsocket.streamAudioChunk.
  destruct (registry !! sid) as [session|] eqn:Hs; [|eauto].
  specialize (Hno session Hs).
  destruct (GeminiLiveWebsocket.geminiWs session) as [readyState|]; [|eauto].
  rewrite bool_decide_eq_true_2 by congruence. eauto.
Qed.


(** The selector when no session exists in either registry. *)
Lemma transcribe_direct w chunk s :
  GeminiLiveWebsocket.hasActiveSession (Transcription.sessionId chunk) (websocketSessions s)
  = false ->
  GeminiLiveRest.hasActiveSession (Transcription.sessionId chunk) (restSessions s) = false ->
  Transcription.transcribe w chunk s
  = (match secondaryAnswer w chunk s with
     | Resolved text => if Transcription.acceptedDirect text then Some text else None
     | Rejected _ => None
     end,
     websocketSessions s,
     Invoked SecondaryBackend (Transcription.sessionId chunk) (Transcription.chunkIndex chunk)
     :: snd (GeminiLiveRest.streamAudioChunk (secondary w) (Transcription.sessionId chunk)
               (Transcription.chunkIndex chunk) (restSessions s))).
Proof.
  intros Hws Hrest. unfold Transcription.transcribe, secondaryAnswer.
  rewrite Hws, Hrest. cbn [orb negb].
  destruct (GeminiLiveRest.streamAudioChunk _ _ _ _) as [[text|e] effects]; cbn [fst snd];
    [destruct (Transcription.acceptedDirect text)|]; reflexivity.
Qed.


Lemma processAudioChunk_unfold w chunk s :
  Transcription.processAudioChunk w chunk s
  = (let s1 := withWebsocketSessions (snd (fst (Transcription.transcribe w chunk s))) s in
     match transcriptionResult w chunk s with
     | Some text =>
         if Transcription.isPlaceholder text then s1
         else withDb (Transcription.store chunk text (db s1)) s1
     | None => s1
     end,
     snd (Transcription.transcribe w chunk s)).
Proof.
  unfold Transcription.processAudioChunk, transcriptionResult.
  destruct (Transcription.transcribe w chunk s) as [[[text|] registry] effects]; cbn;
    [destruct (Transcription.isPlaceholder text)|]; reflexivity.
Qed.

End Selector.

Section Fallback.

#[local] Arguments includes : simpl never.
#[local] Arguments nonBlank : simpl never.
#[local] Arguments findFirst : simpl never.



End Fallback.

(* ===================================================================== *)
(** * C9: the window before the primary socket opens                      *)
(* ===================================================================== *)



(* ===================================================================== *)
(** * C5: fallback to the secondary back end                              *)
(* ===================================================================== *)


Section FallbackStored.

#[local] Arguments includes : simpl never.
#[local] Arguments nonBlank : simpl never.
#[local] Arguments findFirst : simpl never.


End FallbackStored.


(** The fallback when no session is registered with either back end:
    the secondary back end answers "Session not found" without issuing
    its request, whatever the remote service would say, and the chunk
    is dropped. *)
Lemma unregistered_session_is_dropped w chunk s :
  GeminiLiveWebsocket.hasActiveSession (Transcription.sessionId chunk) (websocketSessions s)
  = false ->
  GeminiLiveRest.hasActiveSession (Transcription.sessionId chunk) (restSessions s) = false ->
  Transcription.processAudioChunk w chunk s
  = (s, [Invoked SecondaryBackend (Transcription.sessionId chunk)
           (Transcription.chunkIndex chunk)]).
Proof.
  intros Hws Hrest. rewrite processAudioChunk_unfold. unfold transcriptionResult.
  rewrite (transcribe_direct w chunk s Hws Hrest). cbn [fst snd].
  unfold secondaryAnswer, GeminiLiveRest.streamAudioChunk.
  unfold GeminiLiveRest.hasActiveSession in Hrest.
  apply bool_decide_eq_false in Hrest.
  destruct (restSessions s !! Transcription.sessionId chunk) eqn:Hl;
    [exfalso; apply Hrest; eauto|].
  cbn [fst snd].
  assert (Hrej : Transcription.acceptedDirect
                   (GeminiLiveRest.placeholder (Transcription.chunkIndex chunk)
                      (lit "Session not found")) = false).
  { destruct (Transcription.acceptedDirect _) eqn:H; [|reflexivity].
    apply acceptedDirect_sound in H. destruct H as [_ H].
    pose proof (placeholder_includes_chunk (Transcription.chunkIndex chunk)
                  (lit "Session not found")) as Hin.
    unfold GeminiLiveWebsocket.placeholder in Hin.
    unfold GeminiLiveRest.placeholder in H. congruence. }
  rewrite Hrej. destruct s; reflexivity.
Qed.

(* ===================================================================== *)
(** * C6: dropped chunks                                                  *)
(* ===================================================================== *)

(** C6, as stated, fails on "never emitted": the secondary back end
    emits [transcript:updated] with whatever text it obtained before
    [processAudioChunk] applies its placeholder test.  Here the session
    is registered with the secondary back end only and the remote
    service answers "No speech detected": the chunk is dropped, nothing
    is persisted, but the placeholder text has left through Socket.io. *)
Lemma C6_placeholder_text_is_emitted :
  let s := mkServer (mkDb [] ∅) ∅ {[ lit "s1" := GeminiLiveRest.mk [] 0 ]} ∅ in
  let w := mkWorld (GeminiLiveWebsocket.mkWorld None None [])
                   (GeminiLiveRest.mkWorld true
                      (GeminiLiveRest.Ok (Some [lit "No speech detected"]))) in
  let chunk := Transcription.mk (lit "s1") 0 [] 0 30 in
  transcriptionResult w chunk s = Some (lit "No speech detected")
  /\ Transcription.isPlaceholder (lit "No speech detected") = true
  /\ fst (Transcription.processAudioChunk w chunk s) = s
  /\ snd (Transcription.processAudioChunk w chunk s)
     = [Invoked PrimaryBackend (lit "s1") 0; Invoked SecondaryBackend (lit "s1") 0;
        RestFetch (lit "s1") 0; TranscriptUpdated (lit "s1") (lit "No speech detected") 0].
Proof. vm_compute. repeat split; reflexivity. Qed.

Section Dropped.

#[local] Arguments includes : simpl never.
#[local] Arguments nonBlank : simpl never.

(** The text the selector settles on was returned by one of the back
    ends and passed a test that refuses blank texts and "[Chunk"
    placeholders. *)
Lemma transcriptionResult_sound w chunk s text :
  transcriptionResult w chunk s = Some text ->
  (primaryAnswer w chunk s = Resolved text \/ secondaryAnswer w chunk s = Resolved text)
  /\ nonBlank text = true
  /\ includes text (lit "[Chunk") = false.
Proof.
  unfold transcriptionResult, Transcription.transcribe, primaryAnswer, secondaryAnswer,
    Transcription.restFallback.
  destruct (negb _).
  - destruct (GeminiLiveRest.streamAudioChunk _ _ _ _) as [[t|e] effects]; cbn [fst snd];
      [|discriminate].
    destruct (Transcription.acceptedDirect t) eqn:Hacc; cbn [fst]; [|discriminate].
    intros H. injection H as <-. split; [auto | exact (acceptedDirect_sound t Hacc)].
  - destruct (GeminiLiveWebsocket.streamAudioChunk _ _ _ _) as [[[t|e] registry] effects];
      cbn [fst snd].
    + destruct (Transcription.acceptedPrimary t) eqn:Hacc; cbn [fst].
      * intros H. injection H as <-. split; [auto | exact (acceptedPrimary_sound t Hacc)].
      * destruct (GeminiLiveRest.streamAudioChunk _ _ _ _) as [[t'|e'] effects'];
          cbn [fst snd]; [|discriminate].
        destruct (Transcription.acceptedFallback t') eqn:Hacc'; cbn [fst]; [|discriminate].
        intros H. injection H as <-. split; [auto | exact (acceptedFallback_sound _ Hacc')].
    + destruct (GeminiLiveRest.streamAudioChunk _ _ _ _) as [[t'|e'] effects'];
        cbn [fst snd]; [|discriminate].
      destruct (Transcription.acceptedFallback t') eqn:Hacc'; cbn [fst]; [|discriminate].
      intros H. injection H as <-. split; [auto | exact (acceptedFallback_sound _ Hacc')].
Qed.

Lemma both_failed w chunk s :
  failed (primaryAnswer w chunk s) -> failed (secondaryAnswer w chunk s) ->
  transcriptionResult w chunk s = None.
Proof.
  intros Hp Hs.
  destruct (transcriptionResult w chunk s) as [text|] eqn:Hres; [|reflexivity].
  destruct (transcriptionResult_sound w chunk s text Hres) as [[Ha|Ha] [Hb Hc]];
    [rewrite Ha in Hp; destruct Hp | rewrite Ha in Hs; destruct Hs]; congruence.
Qed.

Lemma processAudioChunk_db w chunk s :
  db (fst (Transcription.processAudioChunk w chunk s))
  = match transcriptionResult w chunk s with
    | Some text =>
        if Transcription.isPlaceholder text then db s
        else Transcription.store chunk text (db s)
    | None => db s
    end.
Proof.
  rewrite processAudioChunk_unfold. cbn [fst].
  destruct (transcriptionResult w chunk s) as [text|]; [|reflexivity].
  destruct (Transcription.isPlaceholder text); reflexivity.
Qed.

Lemma store_status chunk text d sid :
  AppSession.status <$> appSession (Transcription.store chunk text d) !! sid
  = AppSession.status <$> appSession d !! sid.
Proof.
  unfold Transcription.store, updateSessionTranscript. cbn [appSession].
  destruct (appSession d !! Transcription.sessionId chunk) as [session|] eqn:Hs;
    [|reflexivity].
  destruct (decide (Transcription.sessionId chunk = sid)) as [<-|Hne].
  - rewrite lookup_insert_eq, Hs. reflexivity.
  - rewrite lookup_insert_ne by exact Hne. reflexivity.
Qed.

(** C6, amended.  Whenever both back ends fail for the chunk, or the
    transcription result matches a placeholder pattern, or there is no
    result, [processAudioChunk] drops the chunk as a whole: the database
    is exactly what it was, so no TranscriptChunk row is created or
    updated and the running transcript is unchanged; no call of
    [processAudioChunk] changes the status of any session; and what it
    persists is always a text that one of the back ends returned, that
    is not blank and matches none of the placeholder patterns, so
    placeholder text is never persisted. *)
Theorem C6_dropped_chunk_leaves_database_unchanged :
  forall w chunk s,
    let s' := fst (Transcription.processAudioChunk w chunk s) in
    (failed (primaryAnswer w chunk s) -> failed (secondaryAnswer w chunk s) -> db s' = db s)
    /\ (forall text, transcriptionResult w chunk s = Some text ->
                     Transcription.isPlaceholder text = true -> db s' = db s)
    /\ (transcriptionResult w chunk s = None -> db s' = db s)
    /\ (forall sid, AppSession.status <$> appSession (db s') !! sid
                    = AppSession.status <$> appSession (db s) !! sid)
    /\ (db s' = db s
        \/ exists text,
            db s' = Transcription.store chunk text (db s)
            /\ (primaryAnswer w chunk s = Resolved text
                \/ secondaryAnswer w chunk s = Resolved text)
            /\ Transcription.isPlaceholder text = false
            /\ includes text (lit "[Chunk") = false
            /\ nonBlank text = true).
Proof.
  intros w chunk s s'. subst s'. rewrite processAudioChunk_db.
  split; [|split; [|split; [|split]]].
  - intros Hp Hs. rewrite (both_failed w chunk s Hp Hs). reflexivity.
  - intros text -> ->. reflexivity.
  - intros ->. reflexivity.
  - intros sid. destruct (transcriptionResult w chunk s) as [text|]; [|reflexivity].
    destruct (Transcription.isPlaceholder text); [reflexivity | apply store_status].
  - destruct (transcriptionResult w chunk s) as [text|] eqn:Hres; [|left; reflexivity].
    destruct (Transcription.isPlaceholder text) eqn:Hph; [left; reflexivity|].
    right. exists text.
    destruct (transcriptionResult_sound w chunk s text Hres) as [Ha [Hb Hc]]. auto.
Qed.

End Dropped.

Lemma unregistered_session_is_dropped_witness :
  let started :=
    fst (ServerIndex.onSessionStart (ServerIndex.mkStartWorld true None)
           (lit "s1") (lit "MIC") (mkServer (mkDb [] ∅) ∅ ∅ ∅)) in
  let w := mkWorld (GeminiLiveWebsocket.mkWorld None None [lit "hello"])
                   (GeminiLiveRest.mkWorld true (GeminiLiveRest.Ok (Some [lit "hello"]))) in
  let chunk := Transcription.mk (lit "s1") 0 [] 0 30 in
  Transcription.processAudioChunk w chunk started
  = (started, [Invoked SecondaryBackend (lit "s1") 0]).
Proof.
  intros started w chunk. apply unregistered_session_is_dropped; reflexivity.
Defined.

(* ===================================================================== *)
(** * The primary back end: buffer, stop, failed sockets                  *)
(* ===================================================================== *)

Section PrimaryBackendFacts.

Import GeminiLiveWebsocket.

#[local] Arguments nonBlank : simpl never.

Lemma join_cons_cons (sep p q : jsstring) (ps : list jsstring) :
  join sep (p :: q :: ps) = p ++ sep ++ join sep (q :: ps).
Proof. reflexivity. Qed.

Lemma nonBlank_nonempty (t : jsstring) : nonBlank t = true -> t <> [].
Proof. intros H ->. discriminate. Qed.

(** Appending texts with content one after the other joins them with
    single spaces. *)
Lemma appendBuffer_fold (ts : list jsstring) :
  Forall (fun t => t <> []) ts ->
  forall b,
    foldl appendBuffer b ts
    = if truthy b then join space (b :: ts) else join space ts.
Proof.
  induction 1 as [|t ts Ht _ IH]; intros b.
  - simpl. destruct b; reflexivity.
  - cbn [foldl]. rewrite IH. unfold appendBuffer.
    destruct b as [|c b].
    + cbn [truthy app]. destruct t as [|d t]; [congruence|]. reflexivity.
    + cbn [truthy].
      assert (Htr : truthy ((c :: b) ++ space ++ t) = true) by reflexivity.
      rewrite Htr. destruct ts as [|u ts].
      * cbn [join]. reflexivity.
      * rewrite !join_cons_cons. rewrite <- !app_assoc. reflexivity.
Qed.

Lemma transcriptsOf_nonempty evs : Forall (fun t => t <> []) (transcriptsOf evs).
Proof.
  unfold transcriptsOf. induction evs as [|ev evs IH]; [constructor|].
  cbn [omap list_omap]. destruct ev as [b|t| |]; try exact IH.
  destruct (nonBlank t) eqn:Ht; [|exact IH].
  constructor; [exact (nonBlank_nonempty t Ht) | exact IH].
Qed.

(** The session of [sessionId] after its events. *)
Lemma deliverEvents_lookup sid evs : forall r session,
  r !! sid = Some session ->
  deliverEvents sid evs r !! sid = Some (foldl (fun c ev => onEvent ev c) session evs).
Proof.
  unfold deliverEvents.
  induction evs as [|ev evs IH]; intros r session Hs; [exact Hs|].
  cbn [foldl]. apply IH. unfold deliver. rewrite lookup_alter_eq, Hs. reflexivity.
Qed.

Lemma deliverEvents_other sid other evs : forall r,
  other <> sid -> deliverEvents sid evs r !! other = r !! other.
Proof.
  unfold deliverEvents.
  induction evs as [|ev evs IH]; intros r Hne; [reflexivity|].
  cbn [foldl]. rewrite IH by exact Hne. unfold deliver.
  rewrite lookup_alter_ne by congruence. reflexivity.
Qed.

Lemma onEvents_buffer evs : forall session,
  transcriptBuffer (foldl (fun c ev => onEvent ev c) session evs)
  = foldl appendBuffer (transcriptBuffer session) (transcriptsOf evs).
Proof.
  unfold transcriptsOf.
  induction evs as [|ev evs IH]; intros session; [reflexivity|].
  cbn [foldl omap list_omap]. rewrite IH.
  destruct ev as [b|t| |]; cbn [onEvent withReadyState transcriptBuffer]; try reflexivity.
  destruct (nonBlank t); reflexivity.
Qed.

(** After an [error] or [close] the socket of the session is not open,
    and no later event but an [open] changes that. *)
Lemma onEvents_closed evs : forall session,
  Forall notOpen evs ->
  isConnected session = false ->
  (exists readyState, geminiWs session = Some readyState /\ readyState <> OPEN) ->
  let session' := foldl (fun c ev => onEvent ev c) session evs in
  isConnected session' = false
  /\ exists readyState, geminiWs session' = Some readyState /\ readyState <> OPEN.
Proof.
  induction evs as [|ev evs IH]; intros session Hevs Hc Hw; [split; assumption|].
  apply Forall_cons in Hevs. destruct Hevs as [Hev Hevs].
  cbn [foldl]. apply IH; [exact Hevs| |];
    destruct Hw as [readyState [Hw Hr]];
    destruct ev as [b|t| |]; cbn [onEvent];
    try (exfalso; exact (Hev b eq_refl));
    try (destruct (nonBlank t)); cbn; rewrite ?Hw; cbn; eauto;
    eexists; (split; [reflexivity | discriminate]).
Qed.

End PrimaryBackendFacts.

(** The transcript buffer of a session of the primary back end: from
    the moment [startLiveSession] has registered the session, whatever
    events its socket delivers, [getSessionTranscript] is the texts of
    the messages that carried a transcript with content, in the order
    they arrived, joined by single spaces; messages without content,
    [open], [error] and [close] leave no trace in it. *)
Theorem getSessionTranscript_joins_transcripts :
  forall apiKeySet constructorThrows sid activeSessions registry events,
    GeminiLiveWebsocket.startLiveSession apiKeySet constructorThrows sid activeSessions
    = Resolved registry ->
    GeminiLiveWebsocket.getSessionTranscript sid (deliverEvents sid events registry)
    = join space (transcriptsOf events).
Proof.
  intros apiKeySet constructorThrows sid activeSessions registry events Hstart.
  unfold GeminiLiveWebsocket.startLiveSession in Hstart.
  destruct apiKeySet; [|discriminate].
  destruct constructorThrows; [discriminate|]. injection Hstart as <-.
  unfold GeminiLiveWebsocket.getSessionTranscript.
  rewrite (deliverEvents_lookup sid events _ _ (lookup_insert_eq _ _ _)).
  rewrite onEvents_buffer.
  rewrite (appendBuffer_fold _ (transcriptsOf_nonempty events)). reflexivity.
Qed.

Lemma getSessionTranscript_joins_transcripts_witness :
  let registry :=
    <[lit "s1" := GeminiLiveWebsocket.mk (Some GeminiLiveWebsocket.CONNECTING) [] 0 false]>
      (∅ : GeminiLiveWebsocket.Registry) in
  let events :=
    [GeminiLiveWebsocket.EvOpen true; GeminiLiveWebsocket.EvMessage (lit "hello");
     GeminiLiveWebsocket.EvMessage (lit "  "); GeminiLiveWebsocket.EvMessage (lit "world");
     GeminiLiveWebsocket.EvClose] in
  GeminiLiveWebsocket.getSessionTranscript (lit "s1") (deliverEvents (lit "s1") events registry)
  = join space (transcriptsOf events).
Proof.
  intros registry events.
  apply (getSessionTranscript_joins_transcripts true None (lit "s1") ∅ registry events).
  reflexivity.
Defined.

(** [stopLiveSession] of the primary back end forgets the session: it
    is no longer active, its transcript buffer reads as empty, every
    later chunk for it is answered "[Chunk i: Session not found]" with
    nothing sent, and the other sessions are left as they were; stopping
    again, or stopping a session that was never started, changes
    nothing, and stopping a registered session lowers the session count
    by one. *)
Theorem stopLiveSession_forgets_session :
  forall sid activeSessions,
    let registry := GeminiLiveWebsocket.stopLiveSession sid activeSessions in
    GeminiLiveWebsocket.hasActiveSession sid registry = false
    /\ GeminiLiveWebsocket.getSessionTranscript sid registry = []
    /\ (forall w idx,
           GeminiLiveWebsocket.streamAudioChunk w sid idx registry
           = (Resolved (GeminiLiveWebsocket.placeholder idx (lit "Session not found")),
              registry, []))
    /\ (forall other, other <> sid -> registry !! other = activeSessions !! other)
    /\ GeminiLiveWebsocket.stopLiveSession sid registry = registry
    /\ (activeSessions !! sid = None -> registry = activeSessions)
    /\ (is_Some (activeSessions !! sid) ->
        S (GeminiLiveWebsocket.getActiveSessionCount registry)
        = GeminiLiveWebsocket.getActiveSessionCount activeSessions).
Proof.
  intros sid activeSessions registry. subst registry.
  unfold GeminiLiveWebsocket.stopLiveSession, GeminiLiveWebsocket.hasActiveSession,
    GeminiLiveWebsocket.getSessionTranscript, GeminiLiveWebsocket.streamAudioChunk,
    GeminiLiveWebsocket.getActiveSessionCount.
  rewrite lookup_delete_eq. repeat split.
  - intros other Hne. apply lookup_delete_ne. congruence.
  - apply delete_id. apply lookup_delete_eq.
  - apply delete_id.
  - intros Hs. rewrite (map_size_delete_Some sid activeSessions Hs).
    pose proof (map_size_ne_0_lookup_2 activeSessions sid Hs). lia.
Qed.

(** A socket of the primary back end that has reported [error] or
    [close] is never used again: whatever events follow, short of a new
    [open], the session stays in the registry, it is not active, and
    every chunk for it is answered with a "[Chunk i: ...]" placeholder
    while nothing is sent and the registry is left as it is. *)
Theorem failed_socket_is_not_used :
  forall sid activeSessions session ev later,
    activeSessions !! sid = Some session ->
    GeminiLiveWebsocket.geminiWs session <> None ->
    ev = GeminiLiveWebsocket.EvError \/ ev = GeminiLiveWebsocket.EvClose ->
    Forall notOpen later ->
    let registry :=
      deliverEvents sid later (GeminiLiveWebsocket.deliver sid ev activeSessions) in
    is_Some (registry !! sid)
    /\ GeminiLiveWebsocket.hasActiveSession sid registry = false
    /\ GeminiLiveWebsocket.sendTurnComplete sid registry = false
    /\ forall w idx, exists what,
         GeminiLiveWebsocket.streamAudioChunk w sid idx registry
         = (Resolved (GeminiLiveWebsocket.placeholder idx what), registry, []).
Proof.
  intros sid activeSessions session ev later Hs Hws Hev Hlater registry.
  assert (Hfirst : GeminiLiveWebsocket.deliver sid ev activeSessions !! sid
                   = Some (GeminiLiveWebsocket.onEvent ev session)).
  { unfold GeminiLiveWebsocket.deliver. rewrite lookup_alter_eq, Hs. reflexivity. }
  pose proof (deliverEvents_lookup sid later _ _ Hfirst) as Hl. fold registry in Hl.
  destruct (GeminiLiveWebsocket.geminiWs session) as [state|] eqn:Hstate; [|congruence].
  destruct (onEvents_closed later (GeminiLiveWebsocket.onEvent ev session) Hlater)
    as [Hc [readyState [Hw Hr]]].
  { destruct Hev as [-> | ->]; reflexivity. }
  { destruct Hev as [-> | ->]; cbn; rewrite Hstate; cbn;
      eexists; (split; [reflexivity | discriminate]). }
  split; [rewrite Hl; eauto|].
  split; [unfold GeminiLiveWebsocket.hasActiveSession; rewrite Hl, Hc; reflexivity|].
  split; [unfold GeminiLiveWebsocket.sendTurnComplete; rewrite Hl, Hc;
          apply andb_false_r|].
  intros w idx. apply streamAudioChunk_refuses.
  intros session' Hs'. rewrite Hl in Hs'. injection Hs' as <-. rewrite Hw. congruence.
Qed.

Lemma failed_socket_is_not_used_witness :
  let activeSessions :=
    <[lit "s1" := GeminiLiveWebsocket.mk (Some GeminiLiveWebsocket.OPEN) [] 0 true]>
      (∅ : GeminiLiveWebsocket.Registry) in
  let registry :=
    deliverEvents (lit "s1") [GeminiLiveWebsocket.EvMessage (lit "late")]
      (GeminiLiveWebsocket.deliver (lit "s1") GeminiLiveWebsocket.EvClose activeSessions) in
  is_Some (registry !! lit "s1")
  /\ GeminiLiveWebsocket.hasActiveSession (lit "s1") registry = false
  /\ GeminiLiveWebsocket.sendTurnComplete (lit "s1") registry = false
  /\ forall w idx, exists what,
       GeminiLiveWebsocket.streamAudioChunk w (lit "s1") idx registry
       = (Resolved (GeminiLiveWebsocket.placeholder idx what), registry, []).
Proof.
  intros activeSessions registry.
  apply (failed_socket_is_not_used (lit "s1") activeSessions
           (GeminiLiveWebsocket.mk (Some GeminiLiveWebsocket.OPEN) [] 0 true)
           GeminiLiveWebsocket.EvClose [GeminiLiveWebsocket.EvMessage (lit "late")]).
  - reflexivity.
  - discriminate.
  - right. reflexivity.
  - constructor; [intros b; discriminate | constructor].
Defined.

(* ===================================================================== *)
(** * The secondary back end                                              *)
(* ===================================================================== *)

Lemma rest_placeholder_chunkPlaceholder idx what :
  chunkPlaceholder idx (GeminiLiveRest.placeholder idx what).
Proof.
  exists (lit ": " ++ what). unfold GeminiLiveRest.placeholder.
  rewrite <- !app_assoc. reflexivity.
Qed.

(** The secondary [streamAudioChunk] never rejects, and it answers in
    one of two ways.  Either with a "[Chunk i: ...]" placeholder, and
    then no [transcript:updated] event leaves; or with a transcript
    that is not empty and carries no white space at either end, after
    its request, and then exactly one [transcript:updated] event leaves,
    with that text and the index of the chunk.  The request to the
    remote service is issued only for a session registered with this
    back end and with the API key set. *)
Theorem rest_streamAudioChunk_outcomes :
  forall w sid idx registry,
    let effects := snd (GeminiLiveRest.streamAudioChunk w sid idx registry) in
    exists text,
      fst (GeminiLiveRest.streamAudioChunk w sid idx registry) = Resolved text
      /\ ((chunkPlaceholder idx text /\ (effects = [] \/ effects = [RestFetch sid idx]))
          \/ (text <> [] /\ trim text = text
              /\ effects = [RestFetch sid idx; TranscriptUpdated sid text idx]))
      /\ (RestFetch sid idx ∈ effects ->
          is_Some (registry !! sid) /\ GeminiLiveRest.apiKeySet w = true).
Proof.
  intros w sid idx registry effects. subst effects.
  unfold GeminiLiveRest.streamAudioChunk, GeminiLiveRest.transcriptionError.
  destruct (registry !! sid) as [session|].
  - destruct (GeminiLiveRest.apiKeySet w); cbn [negb].
    + destruct (GeminiLiveRest.response w) as [e|line|parts]; cbn [fst snd].
      * eexists. split; [reflexivity|]. split; [|eauto].
        left. split; [apply rest_placeholder_chunkPlaceholder | auto].
      * eexists. split; [reflexivity|]. split; [|eauto].
        left. split; [apply rest_placeholder_chunkPlaceholder | auto].
      * destruct (truthy _) eqn:Ht; cbn [fst snd].
        -- eexists. split; [reflexivity|]. split; [|eauto]. right.
           destruct parts as [texts|]; [|discriminate].
           split; [intros H; rewrite H in Ht; discriminate|].
           split; [apply trim_idem | reflexivity].
        -- eexists. split; [reflexivity|]. split; [|eauto].
           left. split; [apply rest_placeholder_chunkPlaceholder | auto].
    + cbn [fst snd]. eexists. split; [reflexivity|]. split.
      * left. split; [apply rest_placeholder_chunkPlaceholder | auto].
      * intros H. apply elem_of_nil in H. contradiction.
  - cbn [fst snd]. eexists. split; [reflexivity|]. split.
    + left. split; [apply rest_placeholder_chunkPlaceholder | auto].
    + intros H. apply elem_of_nil in H. contradiction.
Qed.

(** Starting and stopping a session of the secondary back end.
    [startLiveSession] throws exactly when the API key is not set;
    otherwise the session is registered, the other sessions are left
    alone, [stopLiveSession] unregisters it again, and for a session
    that was not registered before, stopping after starting restores
    the registry. *)
Theorem rest_session_start_stop :
  forall apiKeySet sid activeSessions,
    match GeminiLiveRest.startLiveSession apiKeySet sid activeSessions with
    | Resolved registry =>
        apiKeySet = true
        /\ GeminiLiveRest.hasActiveSession sid registry = true
        /\ (forall other, other <> sid ->
               GeminiLiveRest.hasActiveSession other registry
               = GeminiLiveRest.hasActiveSession other activeSessions)
        /\ GeminiLiveRest.hasActiveSession sid (GeminiLiveRest.stopLiveSession sid registry)
           = false
        /\ (activeSessions !! sid = None ->
            GeminiLiveRest.stopLiveSession sid registry = activeSessions)
    | Rejected e =>
        apiKeySet = false /\ e = ErrorObject (lit "GEMINI_API_KEY is not set")
    end.
Proof.
  intros apiKeySet sid activeSessions.
  unfold GeminiLiveRest.startLiveSession, GeminiLiveRest.hasActiveSession,
    GeminiLiveRest.stopLiveSession.
  destruct apiKeySet; [|split; reflexivity].
  split; [reflexivity|]. split; [|split; [|split]].
  - apply bool_decide_eq_true. rewrite lookup_insert_eq. eauto.
  - intros other Hne. rewrite lookup_insert_ne by congruence. reflexivity.
  - apply bool_decide_eq_false. rewrite lookup_delete_eq. intros [x Hx]. discriminate.
  - intros Hnone. apply delete_insert_id. exact Hnone.
Qed.

(* ===================================================================== *)
(** * services/gemini-live.ts                                             *)
(* ===================================================================== *)

Section Unfinished.

#[local] Arguments includes : simpl never.
#[local] Arguments nonBlank : simpl never.

Lemma geminiLive_placeholder idx what :
  chunkPlaceholder idx (GeminiLive.placeholder idx what)
  /\ includes (GeminiLive.placeholder idx what) (lit "[Chunk") = true.
Proof.
  split.
  - exists (lit ": " ++ what). unfold GeminiLive.placeholder.
    rewrite <- !app_assoc. reflexivity.
  - apply includes_spec. exists [], (lit " " ++ ofN idx ++ lit ": " ++ what ++ lit "]").
    reflexivity.
Qed.

Lemma chunk_marker_refused text :
  includes text (lit "[Chunk") = true ->
  Transcription.acceptedPrimary text = false
  /\ Transcription.acceptedDirect text = false
  /\ Transcription.acceptedFallback text = false.
Proof.
  intros H. split; [|split].
  - destruct (Transcription.acceptedPrimary text) eqn:Ha; [|reflexivity].
    apply acceptedPrimary_sound in Ha. destruct Ha; congruence.
  - destruct (Transcription.acceptedDirect text) eqn:Ha; [|reflexivity].
    apply acceptedDirect_sound in Ha. destruct Ha; congruence.
  - destruct (Transcription.acceptedFallback text) eqn:Ha; [|reflexivity].
    apply acceptedFallback_sound in Ha. destruct Ha; congruence.
Qed.

End Unfinished.

(** [streamAudioChunkToGemini] of services/gemini-live.ts never
    produces a transcript: for every input, registered session or not,
    API key or not, it returns a "[Chunk i: ...]" placeholder, a text
    every test of [processAudioChunk] refuses; it never changes the
    registered sessions, and for a session that is not registered it
    changes nothing at all. *)
Theorem streamAudioChunkToGemini_never_transcribes :
  forall w sid idx startTime endTime st,
    let text := fst (GeminiLive.streamAudioChunkToGemini w sid idx startTime endTime st) in
    let st' := snd (GeminiLive.streamAudioChunkToGemini w sid idx startTime endTime st) in
    chunkPlaceholder idx text
    /\ Transcription.acceptedPrimary text = false
    /\ Transcription.acceptedDirect text = false
    /\ Transcription.acceptedFallback text = false
    /\ GeminiLive.activeSessions st' = GeminiLive.activeSessions st
    /\ (GeminiLive.activeSessions st !! sid = None -> st' = st).
Proof.
  intros w sid idx startTime endTime st text st'. subst text st'.
  unfold GeminiLive.streamAudioChunkToGemini.
  destruct (GeminiLive.activeSessions st !! sid) as [session|];
    [destruct (GeminiLive.genAI st || GeminiLive.apiKeySet w);
       [destruct (GeminiLive.encodeThrows w)|]|];
    cbn [fst snd GeminiLive.activeSessions];
    (split; [apply geminiLive_placeholder|]);
    pose proof (fun what => chunk_marker_refused _ (proj2 (geminiLive_placeholder idx what)))
      as Hrefused;
    repeat (split; [apply Hrefused|]);
    (split; [reflexivity|]); first [discriminate | reflexivity].
Qed.

(* ===================================================================== *)
(** * The summary                                                         *)
(* ===================================================================== *)

Section SummaryFacts.

#[local] Arguments includes : simpl never.
#[local] Arguments trim : simpl never.

(** A text that holds an opening bracket is not blank. *)
Lemma bracket_nonBlank (s : jsstring) :
  includes s [leftBracket] = true -> nonBlank s = true.
Proof.
  intros H. apply includes_trim in H.
  unfold nonBlank. destruct (trim s); [|reflexivity].
  change (trim [leftBracket]) with [leftBracket] in H.
  rewrite includes_false_nil in H by discriminate. discriminate.
Qed.

Lemma rangeHeader_starts st en : exists r, rangeHeader st en = leftBracket :: r.
Proof. unfold rangeHeader. eexists. reflexivity. Qed.

(** The transcript assembled from at least one chunk is not blank: it
    starts with a range header. *)
Lemma fullTranscriptOf_nonBlank chunk chunks :
  nonBlank (Transcription.fullTranscriptOf (chunk :: chunks)) = true.
Proof.
  apply bracket_nonBlank. apply includes_spec. exists [].
  unfold Transcription.fullTranscriptOf. cbn [map].
  destruct (rangeHeader_starts (TranscriptChunk.startTime chunk)
              (TranscriptChunk.endTime chunk)) as [r Hr].
  destruct (map _ chunks) as [|p ps]; cbn [join]; rewrite Hr;
    eexists; cbn [app]; reflexivity.
Qed.

Lemma existsb_nonempty {A} (f : A -> bool) (l : list A) :
  existsb f l = true -> exists x l', l = x :: l'.
Proof. destruct l; [discriminate | eauto]. Qed.

Variable generateSummary : jsstring -> Settled jsstring.

(** The second half of the test of [generateSessionSummary] is implied
    by the first. *)
Lemma summary_test sid d :
  existsb Transcription.realTranscript (Transcription.chunksOf sid d)
  && nonBlank (Transcription.fullTranscriptOf (Transcription.chunksOf sid d))
  = existsb Transcription.realTranscript (Transcription.chunksOf sid d).
Proof.
  destruct (existsb _ _) eqn:H; [|reflexivity].
  destruct (existsb_nonempty _ _ H) as [x [l' ->]].
  rewrite fullTranscriptOf_nonBlank. reflexivity.
Qed.

Lemma hasRealTranscript_spec sid d :
  existsb Transcription.realTranscript (Transcription.chunksOf sid d) = true
  <-> exists chunk, chunk ∈ transcriptChunk d
                    /\ TranscriptChunk.sessionId chunk = sid
                    /\ Transcription.realTranscript chunk = true.
Proof.
  rewrite existsb_exists. unfold Transcription.chunksOf, findMany. split.
  - intros [chunk [Hin Hok]]. exists chunk. apply list_elem_of_In in Hin.
    rewrite merge_sort_Permutation in Hin. apply list_elem_of_filter in Hin.
    destruct Hin as [Hsid Hin]. auto.
  - intros [chunk [Hin [Hsid Hok]]]. exists chunk. split; [|exact Hok].
    apply list_elem_of_In. rewrite merge_sort_Permutation.
    apply list_elem_of_filter. auto.
Qed.

(** The two cases of [generateSessionSummary] for a session that
    exists. *)
Lemma generateSessionSummary_no_content sid d session :
  appSession d !! sid = Some session ->
  existsb Transcription.realTranscript (Transcription.chunksOf sid d) = false ->
  Transcription.generateSessionSummary generateSummary sid d
  = (Resolved Transcription.noTranscriptAvailable,
     mkDb (transcriptChunk d)
          (<[sid := AppSession.withSummary Transcription.noTranscriptAvailable
                      COMPLETED session]> (appSession d)),
     []).
Proof.
  intros Hs Hreal. unfold Transcription.generateSessionSummary.
  rewrite Hreal. cbn [andb].
  rewrite (updateSession_found sid _ d session Hs). reflexivity.
Qed.

Lemma generateSessionSummary_content sid d session :
  appSession d !! sid = Some session ->
  existsb Transcription.realTranscript (Transcription.chunksOf sid d) = true ->
  Transcription.generateSessionSummary generateSummary sid d
  = (match generateSummary (Transcription.fullTranscriptOf (Transcription.chunksOf sid d))
     with
     | Resolved summary =>
         (Resolved summary,
          mkDb (transcriptChunk d)
               (<[sid := AppSession.withSummary summary COMPLETED session]> (appSession d)))
     | Rejected e =>
         (Rejected e,
          mkDb (transcriptChunk d)
               (<[sid := AppSession.withStatus FAILED session]> (appSession d)))
     end,
     [SummaryRequested (Transcription.fullTranscriptOf (Transcription.chunksOf sid d))]).
Proof.
  intros Hs Hreal. unfold Transcription.generateSessionSummary.
  rewrite summary_test, Hreal.
  destruct (generateSummary _) as [summary|e].
  - rewrite (updateSession_found sid _ d session Hs). reflexivity.
  - unfold Transcription.markFailed.
    rewrite (updateSession_found sid _ d session Hs). reflexivity.
Qed.

End SummaryFacts.

(** What [generateSessionSummary] does for a session that exists.  When
    no chunk of the session has real content (in particular when the
    session has no chunk at all) the summary service is not called, the
    summary is the fixed text "No transcript available. ..." and the
    session is COMPLETED.  When some chunk has real content the service
    is called once, with the chunks of the session written in the order
    of their indices, and its outcome is the outcome of the call: its
    text is stored and the session COMPLETED, or its error is thrown
    again and the session FAILED. *)
Theorem generateSessionSummary_calls_service_iff_real_content :
  forall generateSummary sid d session,
    appSession d !! sid = Some session ->
    let fullTranscript := Transcription.fullTranscriptOf (Transcription.chunksOf sid d) in
    let stored summary :=
      mkDb (transcriptChunk d)
           (<[sid := AppSession.withSummary summary COMPLETED session]> (appSession d)) in
    ((forall chunk, chunk ∈ transcriptChunk d -> TranscriptChunk.sessionId chunk = sid ->
                    Transcription.realTranscript chunk = false) ->
     Transcription.generateSessionSummary generateSummary sid d
     = (Resolved Transcription.noTranscriptAvailable,
        stored Transcription.noTranscriptAvailable, []))
    /\ ((exists chunk, chunk ∈ transcriptChunk d /\ TranscriptChunk.sessionId chunk = sid
                       /\ Transcription.realTranscript chunk = true) ->
        Transcription.generateSessionSummary generateSummary sid d
        = (match generateSummary fullTranscript with
           | Resolved summary => (Resolved summary, stored summary)
           | Rejected e =>
               (Rejected e,
                mkDb (transcriptChunk d)
                     (<[sid := AppSession.withStatus FAILED session]> (appSession d)))
           end,
           [SummaryRequested fullTranscript])).
Proof.
  intros generateSummary sid d session Hs fullTranscript stored. split.
  - intros Hnone. apply generateSessionSummary_no_content; [exact Hs|].
    destruct (existsb _ _) eqn:H; [|reflexivity].
    apply hasRealTranscript_spec in H. destruct H as [chunk [Hin [Hsid Hok]]].
    rewrite (Hnone chunk Hin Hsid) in Hok. discriminate.
  - intros Hsome. apply hasRealTranscript_spec in Hsome.
    exact (generateSessionSummary_content generateSummary sid d session Hs Hsome).
Qed.

Lemma generateSessionSummary_calls_service_iff_real_content_witness :
  let session := AppSession.mk (lit "u1") MIC PROCESSING None None in
  let d := mkDb [TranscriptChunk.mk (lit "s1") 0 (lit "[Chunk 0: Timeout]") 0 30;
                 TranscriptChunk.mk (lit "s2") 0 (lit "hello") 0 30]
                (<[lit "s2" := session]> {[ lit "s1" := session ]}) in
  Transcription.generateSessionSummary (fun _ => Resolved (lit "never asked")) (lit "s1") d
  = (Resolved Transcription.noTranscriptAvailable,
     mkDb (transcriptChunk d)
          (<[lit "s1" := AppSession.withSummary Transcription.noTranscriptAvailable
                           COMPLETED session]> (appSession d)),
     []).
Proof.
  intros session d.
  apply (proj1 (generateSessionSummary_calls_service_iff_real_content
                  (fun _ => Resolved (lit "never asked")) (lit "s1") d session eq_refl)).
  intros chunk Hin Hsid. subst d. cbn [transcriptChunk] in Hin.
  apply elem_of_cons in Hin. destruct Hin as [-> | Hin]; [reflexivity|].
  apply list_elem_of_singleton in Hin. subst chunk. discriminate.
Defined.

(** [generateSessionSummary] for a session that has no row: the promise
    rejects (the update of the session finds no row, and so does the
    attempt to mark the session FAILED), nothing is written, and when
    the session has no chunks either the summary service is not
    called. *)
Theorem generateSessionSummary_without_session_row :
  forall generateSummary sid d,
    appSession d !! sid = None ->
    exists e,
      fst (Transcription.generateSessionSummary generateSummary sid d) = (Rejected e, d)
      /\ ((forall chunk, chunk ∈ transcriptChunk d ->
                         TranscriptChunk.sessionId chunk <> sid) ->
          snd (Transcription.generateSessionSummary generateSummary sid d) = []).
Proof.
  intros generateSummary sid d Hnone.
  unfold Transcription.generateSessionSummary, Transcription.markFailed,
    Transcription.updateSession.
  rewrite Hnone.
  destruct (existsb Transcription.realTranscript (Transcription.chunksOf sid d)
            && nonBlank (Transcription.fullTranscriptOf (Transcription.chunksOf sid d)))
    eqn:Htest.
  - destruct (generateSummary _) as [summary|e0]; cbn [fst];
      (eexists; split; [reflexivity|]); intros Hno; exfalso;
      apply andb_true_iff in Htest; destruct Htest as [Hreal _];
      apply hasRealTranscript_spec in Hreal;
      destruct Hreal as [chunk [Hin [Hsid _]]]; exact (Hno chunk Hin Hsid).
  - cbn [fst]. eexists. split; reflexivity.
Qed.

Lemma generateSessionSummary_without_session_row_witness :
  let d := mkDb [TranscriptChunk.mk (lit "s2") 0 (lit "hello") 0 30]
                {[ lit "s2" := AppSession.mk (lit "u1") MIC RECORDING None None ]} in
  exists e,
    fst (Transcription.generateSessionSummary (fun _ => Resolved (lit "summary"))
           (lit "gone") d)
    = (Rejected e, d)
    /\ ((forall chunk, chunk ∈ transcriptChunk d ->
                       TranscriptChunk.sessionId chunk <> lit "gone") ->
        snd (Transcription.generateSessionSummary (fun _ => Resolved (lit "summary"))
               (lit "gone") d) = []).
Proof.
  intros d.
  apply (generateSessionSummary_without_session_row _ (lit "gone") d).
  reflexivity.
Defined.

Section ChunkOrder.

#[local] Instance byChunkIndex_total : Total Transcription.byChunkIndex.
Proof. intros a b. unfold Transcription.byChunkIndex. lia. Qed.

#[local] Instance byChunkIndex_trans : Transitive Transcription.byChunkIndex.
Proof. intros a b c. unfold Transcription.byChunkIndex. lia. Qed.



End ChunkOrder.


(* ===================================================================== *)
(** * lib/gemini.ts                                                       *)
(* ===================================================================== *)

(** [generateSummary] reports every failure in the same way: whether
    the API key is missing, the request fails or the answer cannot be
    read, the promise rejects with an [Error] whose message is "Failed
    to generate summary".  It resolves only with the text the model
    returned for the prompt, and the prompt holds the transcript as it
    was passed.  Without a client and without an API key the model is
    not asked and no client is created. *)
Theorem generateSummary_outcomes :
  forall w genAI transcript,
    match Gemini.generateSummary w genAI transcript with
    | (Resolved summary, client) =>
        Gemini.generateContent w (Gemini.prompt transcript) = Resolved summary
        /\ client = true
    | (Rejected e, client) =>
        e = ErrorObject (lit "Failed to generate summary")
        /\ (client = false <-> genAI = false /\ Gemini.apiKeySet w = false)
    end
    /\ includes (Gemini.prompt transcript) transcript = true.
Proof.
  intros w genAI transcript. split.
  - unfold Gemini.generateSummary.
    destruct genAI, (Gemini.apiKeySet w); cbn [orb];
      try (destruct (Gemini.generateContent w _); split;
           first [reflexivity | split; [discriminate | intros [? ?]; discriminate]]).
    split; [reflexivity|]. split; auto.
  - apply includes_spec.
    exists (lit "Summarize this meeting transcript. Include:" ++ nl
            ++ lit "1. Key points discussed" ++ nl
            ++ lit "2. Action items" ++ nl
            ++ lit "3. Decisions made" ++ nl
            ++ lit "4. Important deadlines or dates" ++ nl ++ nl
            ++ lit "Transcript:" ++ nl),
           (nl ++ nl ++ lit "Provide a concise summary:").
    unfold Gemini.prompt. rewrite <- !app_assoc. reflexivity.
Qed.

(** The summary of a session with real content when the summary service
    fails, for whatever reason (here [generateSessionSummary] runs with
    the [generateSummary] of lib/gemini.ts): the session is marked
    FAILED, its summary and its chunks are left as they were, and the
    promise rejects with the uniform "Failed to generate summary". *)
Theorem summary_failure_marks_session_failed :
  forall w genAI sid d session,
    appSession d !! sid = Some session ->
    (exists chunk, chunk ∈ transcriptChunk d /\ TranscriptChunk.sessionId chunk = sid
                   /\ Transcription.realTranscript chunk = true) ->
    (genAI = false /\ Gemini.apiKeySet w = false
     \/ exists e, Gemini.generateContent w
                    (Gemini.prompt (Transcription.fullTranscriptOf
                                      (Transcription.chunksOf sid d))) = Rejected e) ->
    fst (Transcription.generateSessionSummary
           (fun transcript => fst (Gemini.generateSummary w genAI transcript)) sid d)
    = (Rejected (ErrorObject (lit "Failed to generate summary")),
       mkDb (transcriptChunk d)
            (<[sid := AppSession.withStatus FAILED session]> (appSession d)))
    /\ AppSession.summary (AppSession.withStatus FAILED session) = AppSession.summary session.
Proof.
  intros w genAI sid d session Hs Hreal Hfail. split; [|reflexivity].
  apply hasRealTranscript_spec in Hreal.
  rewrite (generateSessionSummary_content _ sid d session Hs Hreal).
  cbn [fst]. unfold Gemini.generateSummary.
  destruct Hfail as [[-> ->] | [e He]]; [reflexivity|].
  rewrite He. destruct (genAI || Gemini.apiKeySet w); reflexivity.
Qed.

Lemma summary_failure_marks_session_failed_witness :
  let session := AppSession.mk (lit "u1") MIC PROCESSING None None in
  let d := mkDb [TranscriptChunk.mk (lit "s1") 0 (lit "hello") 0 30]
                {[ lit "s1" := session ]} in
  let w := Gemini.mkWorld false (fun _ => Resolved (lit "unused")) in
  fst (Transcription.generateSessionSummary
         (fun transcript => fst (Gemini.generateSummary w false transcript)) (lit "s1") d)
  = (Rejected (ErrorObject (lit "Failed to generate summary")),
     mkDb (transcriptChunk d)
          (<[lit "s1" := AppSession.withStatus FAILED session]> (appSession d)))
  /\ AppSession.summary (AppSession.withStatus FAILED session) = AppSession.summary session.
Proof.
  intros session d w.
  apply (summary_failure_marks_session_failed w false (lit "s1") d session).
  - reflexivity.
  - eexists. split; [apply list_elem_of_singleton; reflexivity|]. split; reflexivity.
  - left. split; reflexivity.
Defined.

(* ===================================================================== *)
(** * The server entry point: sessions                                    *)
(* ===================================================================== *)

Lemma trimStart_blank (s : jsstring) :
  Forall (fun c => isWhiteSpace c = true) s -> trimStart s = [].
Proof.
  induction 1 as [|c s Hc _ IH]; [reflexivity|]. simpl. rewrite Hc. exact IH.
Qed.

Lemma validSessionId_blank (sid : jsstring) :
  Forall (fun c => isWhiteSpace c = true) sid -> ServerIndex.validSessionId sid = false.
Proof.
  intros H. unfold ServerIndex.validSessionId, nonBlank, trim.
  rewrite (trimStart_blank sid H). reflexivity.
Qed.

(** A session identifier that is empty or made of white space only is
    refused by the three handlers that validate it, before anything is
    done: [session:start] answers [session:error], [audio:chunk] answers
    [audio:error], [transcript:chunk] answers nothing, and in each case
    no back end is asked and the state of the server is what it was. *)
Theorem blank_session_id_is_refused :
  forall sid s,
    Forall (fun c => isWhiteSpace c = true) sid ->
    (forall sw mode,
        ServerIndex.onSessionStart sw sid mode s = (s, [OtherEvent (lit "session:error")]))
    /\ (forall w audioData idx,
           ServerIndex.onAudioChunk w sid audioData idx s
           = (s, [OtherEvent (lit "audio:error")]))
    /\ (forall text idx, ServerIndex.onTranscriptChunk sid text idx s = (s, [])).
Proof.
  intros sid s Hblank. pose proof (validSessionId_blank sid Hblank) as Hv.
  unfold ServerIndex.onSessionStart, ServerIndex.onAudioChunk,
    ServerIndex.onTranscriptChunk.
  rewrite Hv. repeat split.
Qed.

Lemma blank_session_id_is_refused_witness :
  let s := mkServer (mkDb [] ∅) ∅ ∅ ∅ in
  (forall sw mode,
      ServerIndex.onSessionStart sw (lit "  ") mode s
      = (s, [OtherEvent (lit "session:error")]))
  /\ (forall w audioData idx,
         ServerIndex.onAudioChunk w (lit "  ") audioData idx s
         = (s, [OtherEvent (lit "audio:error")]))
  /\ (forall text idx, ServerIndex.onTranscriptChunk (lit "  ") text idx s = (s, [])).
Proof.
  intros s. apply (blank_session_id_is_refused (lit "  ") s).
  repeat constructor.
Defined.

(** What [session:start] registers for a session known to neither back
    end.  The session is registered with the primary back end exactly
    when the API key is set and the WebSocket could be created, with the
    secondary back end exactly when the API key is set and creating the
    WebSocket threw; so never with both, and with none when the API key
    is missing.  Right after [session:start] the session is not active
    on the primary back end, the chunk duration is recorded, and nothing
    is persisted. *)
Theorem session_start_registers_with_one_backend :
  forall sw sid mode s,
    ServerIndex.validSessionId sid = true ->
    websocketSessions s !! sid = None ->
    restSessions s !! sid = None ->
    let s' := fst (ServerIndex.onSessionStart sw sid mode s) in
    (is_Some (websocketSessions s' !! sid)
     <-> ServerIndex.apiKeySet sw = true /\ ServerIndex.constructorThrows sw = None)
    /\ (is_Some (restSessions s' !! sid)
        <-> ServerIndex.apiKeySet sw = true /\ ServerIndex.constructorThrows sw <> None)
    /\ ~ (is_Some (websocketSessions s' !! sid) /\ is_Some (restSessions s' !! sid))
    /\ GeminiLiveWebsocket.hasActiveSession sid (websocketSessions s') = false
    /\ is_Some (sessionMetadata s' !! sid)
    /\ db s' = db s.
Proof.
  intros sw sid mode s Hv Hws Hrest s'. subst s'.
  unfold ServerIndex.onSessionStart. rewrite Hv. cbn [negb fst].
  unfold GeminiLiveWebsocket.startLiveSession, GeminiLiveRest.startLiveSession,
    GeminiLiveWebsocket.hasActiveSession.
  destruct (ServerIndex.apiKeySet sw) eqn:Hkey;
    [destruct (ServerIndex.constructorThrows sw) eqn:Hctor|];
    cbn [websocketSessions restSessions sessionMetadata db];
    rewrite ?lookup_insert_eq, ?Hws, ?Hrest;
    repeat split; eauto; try congruence;
    try (intros [[? ?] [? ?]]; discriminate);
    repeat match goal with
           | |- _ -> _ => intros ?
           | H : _ /\ _ |- _ => destruct H
           | H : is_Some None |- _ => destruct H as [? H]; discriminate
           end;
    first [congruence | exfalso; congruence].
Qed.

Lemma session_start_registers_with_one_backend_witness :
  let s := mkServer (mkDb [] ∅) ∅ ∅ ∅ in
  let sw := ServerIndex.mkStartWorld true (Some OtherValue) in
  let s' := fst (ServerIndex.onSessionStart sw (lit "s1") (lit "TAB") s) in
  (is_Some (websocketSessions s' !! lit "s1")
   <-> ServerIndex.apiKeySet sw = true /\ ServerIndex.constructorThrows sw = None)
  /\ (is_Some (restSessions s' !! lit "s1")
      <-> ServerIndex.apiKeySet sw = true /\ ServerIndex.constructorThrows sw <> None)
  /\ ~ (is_Some (websocketSessions s' !! lit "s1") /\ is_Some (restSessions s' !! lit "s1"))
  /\ GeminiLiveWebsocket.hasActiveSession (lit "s1") (websocketSessions s') = false
  /\ is_Some (sessionMetadata s' !! lit "s1")
  /\ db s' = db s.
Proof.
  intros s sw.
  apply (session_start_registers_with_one_backend sw (lit "s1") (lit "TAB") s);
    reflexivity.
Defined.

(** [session:stop] undoes [session:start]: after it the session is
    known to neither back end and has no recorded chunk duration, the
    other sessions keep their registrations and durations, and nothing
    persisted is touched.  For a session the server did not know
    before, stopping after starting leaves the server exactly as it
    was, whatever happened at the start. *)
Theorem session_stop_undoes_session_start :
  forall sw sid mode s,
    let stopped :=
      fst (ServerIndex.onSessionStop sid (fst (ServerIndex.onSessionStart sw sid mode s))) in
    websocketSessions stopped !! sid = None
    /\ restSessions stopped !! sid = None
    /\ sessionMetadata stopped !! sid = None
    /\ (forall other, other <> sid ->
           websocketSessions stopped !! other = websocketSessions s !! other
           /\ restSessions stopped !! other = restSessions s !! other
           /\ sessionMetadata stopped !! other = sessionMetadata s !! other)
    /\ db stopped = db s
    /\ (websocketSessions s !! sid = None -> restSessions s !! sid = None ->
        sessionMetadata s !! sid = None -> stopped = s).
Proof.
  intros sw sid mode s stopped. subst stopped.
  unfold ServerIndex.onSessionStop, ServerIndex.onSessionStart,
    GeminiLiveWebsocket.stopLiveSession, GeminiLiveRest.stopLiveSession,
    GeminiLiveWebsocket.startLiveSession, GeminiLiveRest.startLiveSession.
  destruct (negb (ServerIndex.validSessionId sid));
    [|destruct (ServerIndex.apiKeySet sw); [destruct (ServerIndex.constructorThrows sw)|]];
    cbn [fst websocketSessions restSessions sessionMetadata db];
    rewrite !lookup_delete_eq;
    (split; [reflexivity|]); (split; [reflexivity|]); (split; [reflexivity|]);
    (split; [intros other Hne;
             rewrite !lookup_delete_ne by congruence;
             rewrite ?lookup_insert_ne by congruence; auto|]);
    (split; [reflexivity|]);
    intros Hws Hrest Hmeta; destruct s as [d ws rest meta];
    cbn [websocketSessions restSessions sessionMetadata db] in *;
    rewrite ?delete_insert_id by assumption;
    rewrite ?delete_id by assumption; reflexivity.
Qed.

(* ===================================================================== *)
(** * No audio is lost on the way to [processAudioChunk]                  *)
(* ===================================================================== *)

Section Conservation.




Lemma recordedData_cons e es :
  recordedData (e :: es) = recordedData [e] ++ recordedData es.
Proof.
  unfold recordedData. destruct e; cbn [omap list_omap concat]; rewrite ?app_nil_r;
    reflexivity.
Qed.

(** One event of the recorder: what is sent, followed by what the hook
    keeps, is what it kept followed by the data of the event. *)
Lemma step_conserves e r :
  let '(r', out) := UseRecording.step e r in
  concat (map UseRecording.audioData out) ++ concat (UseRecording.audioChunksRef r')
  = concat (UseRecording.audioChunksRef r) ++ recordedData [e]
  /\ UseRecording.sessionIdRef r' = UseRecording.sessionIdRef r
  /\ Forall (fun ev => UseRecording.sessionId ev = UseRecording.sessionIdRef r) out.
Proof.
  unfold recordedData.
  destruct e as [data| |]; cbn [UseRecording.step omap list_omap concat].
  - unfold UseRecording.ondataavailable.
    destruct data as [|c data]; cbn [truthy].
    + cbn. rewrite !app_nil_r. repeat split. constructor.
    + destruct (negb (UseRecording.isPausedRef r) && _);
        cbn [map concat UseRecording.audioData UseRecording.audioChunksRef
               UseRecording.sessionIdRef];
        rewrite ?concat_app; cbn [concat]; rewrite ?app_nil_r;
        repeat split; repeat constructor.
  - cbn. rewrite !app_nil_r. repeat split. constructor.
  - cbn. rewrite !app_nil_r. repeat split. constructor.
Qed.

End Conservation.



(** The recording hook, each of its handlers running to its end before
    the next event, sends every byte the recorder hands to it before
    [stopRecording] exactly once and in order, pauses included: the
    audio of the [audio:chunk] events sent while recording, followed by
    the audio of the event [stopRecording] sends for what is left, is
    what the hook held at the beginning followed by all the data the
    recorder delivered; after [stopRecording] the hook holds nothing,
    and every event carries the session identifier of the hook. *)
Theorem hook_sends_every_recorded_byte_once :
  forall es r,
    let '(r', sent) := UseRecording.run es r in
    let '(r'', last) := UseRecording.stopRecording r' in
    concat (map UseRecording.audioData (sent ++ last))
    = concat (UseRecording.audioChunksRef r) ++ recordedData es
    /\ UseRecording.audioChunksRef r'' = []
    /\ Forall (fun ev => UseRecording.sessionId ev = UseRecording.sessionIdRef r)
         (sent ++ last).
Proof.
  intros es r.
  assert (Hrun : let '(r', sent) := UseRecording.run es r in
                 concat (map UseRecording.audioData sent)
                 ++ concat (UseRecording.audioChunksRef r')
                 = concat (UseRecording.audioChunksRef r) ++ recordedData es
                 /\ UseRecording.sessionIdRef r' = UseRecording.sessionIdRef r
                 /\ Forall (fun ev => UseRecording.sessionId ev
                                      = UseRecording.sessionIdRef r) sent).
  { revert r. induction es as [|e es IH]; intros r.
    - cbn. rewrite app_nil_r. repeat split. constructor.
    - cbn [UseRecording.run]. pose proof (step_conserves e r) as Hstep.
      destruct (UseRecording.step e r) as [r1 out1].
      specialize (IH r1). destruct (UseRecording.run es r1) as [r2 outs].
      destruct Hstep as [H1 [H2 H3]]. destruct IH as [I1 [I2 I3]].
      rewrite recordedData_cons, map_app, concat_app. split; [|split].
      + rewrite <- app_assoc, I1, app_assoc, H1, <- app_assoc. reflexivity.
      + congruence.
      + apply Forall_app. split; [exact H3|]. rewrite H2 in I3. exact I3. }
  destruct (UseRecording.run es r) as [r' sent]. destruct Hrun as [H1 [H2 H3]].
  unfold UseRecording.stopRecording.
  destruct (UseRecording.audioChunksRef r') as [|c cs] eqn:Hc;
    cbn [UseRecording.nonEmpty UseRecording.audioChunksRef].
  - rewrite app_nil_r. cbn [concat] in H1. rewrite app_nil_r in H1. auto.
  - rewrite map_app, concat_app. cbn [map concat UseRecording.audioData].
    rewrite app_nil_r. split; [exact H1|]. split; [reflexivity|].
    apply Forall_app. split; [exact H3|]. constructor; [exact H2 | constructor].
Qed.

(* ===================================================================== *)
(** * What the socket handlers keep                                       *)
(* ===================================================================== *)

Section Kept.

#[local] Arguments findFirst : simpl never.
#[local] Arguments rowsFor : simpl never.
#[local] Arguments includes : simpl never.
#[local] Arguments trim : simpl never.

Implicit Types rows : list TranscriptChunk.t.

Lemma sameButText_refl a : sameButText a a.
Proof. repeat split. Qed.

Lemma sameButText_trans a b c : sameButText a b -> sameButText b c -> sameButText a c.
Proof. unfold sameButText. intros [? [? [? ?]]] [? [? [? ?]]]. repeat split; congruence. Qed.

Lemma sameButText_withTranscript text a :
  sameButText a (TranscriptChunk.withTranscript text a).
Proof. destruct a. repeat split. Qed.

Lemma rowsKept_refl rows : rowsKept rows rows.
Proof. intros i row H. exists row. split; [exact H | apply sameButText_refl]. Qed.

Lemma rowsKept_trans rows1 rows2 rows3 :
  rowsKept rows1 rows2 -> rowsKept rows2 rows3 -> rowsKept rows1 rows3.
Proof.
  intros H12 H23 i row H. destruct (H12 i row H) as [row2 [H2 S2]].
  destruct (H23 i row2 H2) as [row3 [H3 S3]]. exists row3.
  split; [exact H3 | exact (sameButText_trans _ _ _ S2 S3)].
Qed.

Lemma rowsKept_updateTranscript i text rows : rowsKept rows (updateTranscript i text rows).
Proof.
  intros j row H. unfold updateTranscript.
  destruct (decide (i = j)) as [->|Hne].
  - rewrite list_lookup_alter_eq, H. eexists. split; [reflexivity|].
    apply sameButText_withTranscript.
  - rewrite list_lookup_alter_ne by exact Hne. exists row.
    split; [exact H | apply sameButText_refl].
Qed.

Lemma rowsKept_create c rows : rowsKept rows (create c rows).
Proof.
  intros j row H. unfold create. exists row. split; [|apply sameButText_refl].
  apply lookup_app_l_Some. exact H.
Qed.

Lemma sameButTranscript_refl a : sameButTranscript a a.
Proof. repeat split. Qed.

Lemma sessionsKept_refl sessions : sessionsKept sessions sessions.
Proof. intros sid. destruct (sessions !! sid); [apply sameButTranscript_refl | exact I]. Qed.

Lemma sessionsKept_trans m1 m2 m3 :
  sessionsKept m1 m2 -> sessionsKept m2 m3 -> sessionsKept m1 m3.
Proof.
  intros H12 H23 sid. specialize (H12 sid). specialize (H23 sid).
  destruct (m1 !! sid), (m2 !! sid), (m3 !! sid); try contradiction; try exact I.
  unfold sameButTranscript in *.
  destruct H12 as [? [? [? ?]]], H23 as [? [? [? ?]]]. repeat split; congruence.
Qed.

Lemma sessionsKept_updateSessionTranscript sid st en text sessions :
  sessionsKept sessions (updateSessionTranscript sid st en text sessions).
Proof.
  intros other. unfold updateSessionTranscript.
  destruct (sessions !! sid) as [session|] eqn:Hs; [|apply sessionsKept_refl].
  destruct (decide (sid = other)) as [<-|Hne].
  - rewrite Hs, lookup_insert_eq. destruct session. repeat split.
  - rewrite lookup_insert_ne by exact Hne.
    destruct (sessions !! other); [apply sameButTranscript_refl | exact I].
Qed.

(** The rows of a pair, counted, after the text of some row has been
    rewritten. *)
Lemma rowsFor_length_updateTranscript sid idx i text rows :
  length (rowsFor sid idx (updateTranscript i text rows)) = length (rowsFor sid idx rows).
Proof.
  unfold updateTranscript, alter.
  revert i; induction rows as [|c rows IH]; intros i; [reflexivity|].
  destruct i as [|i]; cbn [list_alter]; rewrite !rowsFor_cons.
  - destruct (decide (hasKey sid idx c)) as [Hc|Hc].
    + rewrite decide_True by (apply hasKey_withTranscript; exact Hc). reflexivity.
    + rewrite decide_False by (rewrite hasKey_withTranscript; exact Hc). reflexivity.
  - destruct (decide (hasKey sid idx c)); cbn [length]; rewrite IH; reflexivity.
Qed.

Lemma rowsFor_create_other sid idx c rows :
  rowsFor sid idx (create c rows)
  = rowsFor sid idx rows ++ (if decide (hasKey sid idx c) then [c] else []).
Proof.
  unfold create, rowsFor. rewrite filter_app. reflexivity.
Qed.

Lemma uniqueKeys_updateTranscript i text rows :
  uniqueKeys rows -> uniqueKeys (updateTranscript i text rows).
Proof. intros H sid idx. rewrite rowsFor_length_updateTranscript. apply H. Qed.

Lemma uniqueKeys_create c rows :
  findFirst (TranscriptChunk.sessionId c) (TranscriptChunk.chunkIndex c) rows = None ->
  uniqueKeys rows -> uniqueKeys (create c rows).
Proof.
  intros Hnone H sid idx. rewrite rowsFor_create_other.
  destruct (decide (hasKey sid idx c)) as [[<- <-]|Hc].
  - rewrite (findFirst_None_rowsFor _ _ rows Hnone). cbn. lia.
  - rewrite app_nil_r. apply H.
Qed.

Lemma uniqueKeys_storeChunk chunk text rows :
  uniqueKeys rows -> uniqueKeys (Transcription.storeChunk chunk text rows).
Proof.
  intros H. unfold Transcription.storeChunk.
  destruct (findFirst _ _ rows) as [[i existing]|] eqn:Hf.
  - case_bool_decide; [apply uniqueKeys_updateTranscript|]; exact H.
  - apply uniqueKeys_create; [exact Hf | exact H].
Qed.

Lemma rowsKept_storeChunk chunk text rows :
  rowsKept rows (Transcription.storeChunk chunk text rows).
Proof.
  unfold Transcription.storeChunk.
  destruct (findFirst _ _ rows) as [[i existing]|].
  - case_bool_decide; [apply rowsKept_updateTranscript | apply rowsKept_refl].
  - apply rowsKept_create.
Qed.

Lemma dbKept_refl d : dbKept d d.
Proof. split; [auto|]. split; [apply rowsKept_refl | apply sessionsKept_refl]. Qed.

Lemma dbKept_trans d1 d2 d3 : dbKept d1 d2 -> dbKept d2 d3 -> dbKept d1 d3.
Proof.
  intros [U12 [R12 S12]] [U23 [R23 S23]]. split; [auto|].
  split; [exact (rowsKept_trans _ _ _ R12 R23) | exact (sessionsKept_trans _ _ _ S12 S23)].
Qed.

Lemma dbKept_store chunk text d : dbKept d (Transcription.store chunk text d).
Proof.
  unfold Transcription.store. split; [|split]; cbn [transcriptChunk appSession].
  - apply uniqueKeys_storeChunk.
  - apply rowsKept_storeChunk.
  - apply sessionsKept_updateSessionTranscript.
Qed.

Lemma dbKept_processAudioChunk w chunk s :
  dbKept (db s) (db (fst (Transcription.processAudioChunk w chunk s))).
Proof.
  rewrite processAudioChunk_db.
  destruct (transcriptionResult w chunk s) as [text|]; [|apply dbKept_refl].
  destruct (Transcription.isPlaceholder text); [apply dbKept_refl | apply dbKept_store].
Qed.

Lemma dbKept_onTranscriptChunk sid text idx s :
  dbKept (db s) (db (fst (ServerIndex.onTranscriptChunk sid text idx s))).
Proof.
  unfold ServerIndex.onTranscriptChunk.
  destruct (negb (ServerIndex.validSessionId sid)); [apply dbKept_refl|].
  destruct (ServerIndex.isPlaceholder text); [apply dbKept_refl|].
  destruct (findFirst sid idx (transcriptChunk (db s))) as [[i existing]|] eqn:Hf.
  - destruct (includes _ _); [apply dbKept_refl|].
    cbn [fst db withDb]. split; [|split]; cbn [transcriptChunk appSession].
    + apply uniqueKeys_updateTranscript.
    + apply rowsKept_updateTranscript.
    + apply sessionsKept_updateSessionTranscript.
  - cbn [fst db withDb]. split; [|split]; cbn [transcriptChunk appSession].
    + apply uniqueKeys_create. exact Hf.
    + apply rowsKept_create.
    + apply sessionsKept_updateSessionTranscript.
Qed.

Lemma dbKept_handle e s : dbKept (db s) (db (fst (ServerIndex.handle e s))).
Proof.
  destruct e; cbn [ServerIndex.handle].
  - unfold ServerIndex.onSessionStart.
    destruct (negb _); [apply dbKept_refl|]. cbn [fst].
    destruct (GeminiLiveWebsocket.startLiveSession _ _ _ _);
      [|destruct (GeminiLiveRest.startLiveSession _ _ _)]; apply dbKept_refl.
  - unfold ServerIndex.onAudioChunk.
    destruct (negb _); [apply dbKept_refl|].
    pose proof (dbKept_processAudioChunk w
                  (ServerIndex.audioChunkOf sessionId audioData chunkIndex s) s) as H.
    destruct (Transcription.processAudioChunk w _ s) as [s' effects]. exact H.
  - apply dbKept_refl.
  - apply dbKept_refl.
  - apply dbKept_onTranscriptChunk.
  - apply dbKept_refl.
  - apply dbKept_refl.
  - unfold ServerIndex.sendAudioChunk.
    pose proof (dbKept_processAudioChunk w
                  (Transcription.mk sessionId chunkIndex audioBuffer (chunkIndex * 30)
                     (chunkIndex * 30 + 30)) s) as H.
    destruct (Transcription.processAudioChunk w _ s) as [s' effects]. exact H.
Qed.

Lemma dbKept_handleAll es : forall s,
  dbKept (db s) (db (fst (ServerIndex.handleAll es s))).
Proof.
  induction es as [|e es IH]; intros s; [apply dbKept_refl|].
  cbn [ServerIndex.handleAll]. pose proof (dbKept_handle e s) as H.
  destruct (ServerIndex.handle e s) as [s1 effects]. specialize (IH s1).
  destruct (ServerIndex.handleAll es s1) as [s2 more]. cbn [fst] in *.
  exact (dbKept_trans _ _ _ H IH).
Qed.

End Kept.

(** The handlers of the server never store a second row for a
    (sessionId, chunkIndex) pair: if the table of transcript chunks
    holds at most one row for every pair, it still does after any
    sequence of socket events and streamed chunks, handled one after the
    other, in any order and for any sessions, whatever the back ends
    answer.  The database declares no such constraint; the handlers
    keep it by looking the pair up before they write. *)
Theorem handlers_keep_one_row_per_chunk :
  forall es s,
    uniqueKeys (transcriptChunk (db s)) ->
    uniqueKeys (transcriptChunk (db (fst (ServerIndex.handleAll es s)))).
Proof. intros es s. exact (proj1 (dbKept_handleAll es s)). Qed.

Lemma handlers_keep_one_row_per_chunk_witness :
  let w := mkWorld (GeminiLiveWebsocket.mkWorld None None [])
                   (GeminiLiveRest.mkWorld true (GeminiLiveRest.Ok (Some [lit "hello"]))) in
  let es := [ServerIndex.SessionStartEv (ServerIndex.mkStartWorld true (Some OtherValue))
               (lit "s1") (lit "TAB");
             ServerIndex.AudioChunkEv w (lit "s1") [1] 0;
             ServerIndex.TranscriptChunkEv (lit "s1") (lit "world") 0;
             ServerIndex.AudioChunkEv w (lit "s1") [2] 0] in
  uniqueKeys
    (transcriptChunk
       (db (fst (ServerIndex.handleAll es
                   (mkServer
                      (mkDb [] {[ lit "s1" := AppSession.mk (lit "u1") TAB RECORDING
                                                None None ]})
                      ∅ ∅ ∅))))).
Proof.
  intros w es. apply (handlers_keep_one_row_per_chunk es).
  intros sid idx. cbn. lia.
Defined.

(** What the handlers of the server never do to the database: whatever
    events they handle, no row of a transcript chunk is deleted or
    moved, and a row keeps its session, its index and its time range
    (only its text may be rewritten); no session row is created or
    deleted, and a session keeps its owner, its recording mode, its
    status and its summary (only its running transcript may change). *)
Theorem handlers_only_add_rows_and_rewrite_texts :
  forall es s,
    let s' := fst (ServerIndex.handleAll es s) in
    (forall i row,
        transcriptChunk (db s) !! i = Some row ->
        exists row',
          transcriptChunk (db s') !! i = Some row'
          /\ TranscriptChunk.sessionId row' = TranscriptChunk.sessionId row
          /\ TranscriptChunk.chunkIndex row' = TranscriptChunk.chunkIndex row
          /\ TranscriptChunk.startTime row' = TranscriptChunk.startTime row
          /\ TranscriptChunk.endTime row' = TranscriptChunk.endTime row)
    /\ (forall sid,
           match appSession (db s) !! sid, appSession (db s') !! sid with
           | Some session, Some session' =>
               AppSession.userId session' = AppSession.userId session
               /\ AppSession.recordingMode session' = AppSession.recordingMode session
               /\ AppSession.status session' = AppSession.status session
               /\ AppSession.summary session' = AppSession.summary session
           | None, None => True
           | _, _ => False
           end).
Proof.
  intros es s s'. subst s'.
  destruct (dbKept_handleAll es s) as [_ [Hrows Hsessions]]. split.
  - intros i row H. destruct (Hrows i row H) as [row' [H' [S1 [S2 [S3 S4]]]]].
    exists row'. auto.
  - intros sid. specialize (Hsessions sid).
    destruct (appSession (db s) !! sid), (appSession (db (fst _)) !! sid);
      try contradiction; try exact I.
    destruct Hsessions as [? [? [? ?]]]. auto.
Qed.

(* ===================================================================== *)
(** * The speech recognition handler of the recording hook                *)
(* ===================================================================== *)

Section Speech.

#[local] Arguments includes : simpl never.
#[local] Arguments trim : simpl never.

Lemma truthy_nonempty (s : jsstring) : truthy s = true -> s <> [].
Proof. intros H ->. discriminate. Qed.

Lemma nonempty_truthy (s : jsstring) : s <> [] -> truthy s = true.
Proof. destruct s; [congruence | reflexivity]. Qed.

(** What ends with a text that has content has content. *)
Lemma trim_app_nonempty (x y : jsstring) : trim y <> [] -> trim (x ++ trim y) <> [].
Proof.
  intros Hy Hx.
  assert (Hin : includes (x ++ trim y) (trim y) = true).
  { apply includes_spec. exists x, []. rewrite app_nil_r. reflexivity. }
  apply includes_trim in Hin. rewrite trim_idem, Hx in Hin.
  rewrite includes_false_nil in Hin by exact Hy. discriminate.
Qed.

Lemma interval_of (elapsed : N) :
  elapsed / 30000 * 30000 <= elapsed < (elapsed / 30000 + 1) * 30000.
Proof.
  pose proof (N.div_mod elapsed 30000 ltac:(discriminate)) as Hdm.
  pose proof (N.mod_lt elapsed 30000 ltac:(discriminate)) as Hlt.
  set (q := elapsed / 30000) in *. set (m := elapsed mod 30000) in *.
  clearbody q m. lia.
Qed.

End Speech.

(** The handler on one event. *)
Lemma onresult_step :
  forall hasCallback resultIndex results now r,
    let elapsed :=
      if 0 <? UseRecording.recordingStartTimeRef r
      then now - UseRecording.recordingStartTimeRef r else 0 in
    let r' := fst (UseRecording.onresult hasCallback resultIndex results now r) in
    let out := snd (UseRecording.onresult hasCallback resultIndex results now r) in
    (UseRecording.isPausedRef (UseRecording.refs r) = true
     \/ UseRecording.isRecordingRef r = false -> r' = r /\ out = [])
    /\ Forall (sentWithin (UseRecording.sessionIdRef (UseRecording.refs r)) elapsed) out
    /\ (r' = r
        \/ r' = UseRecording.mkSpeechRefs (UseRecording.refs r) []
                  (UseRecording.isRecordingRef r) (UseRecording.recordingStartTimeRef r)).
Proof.
  intros hasCallback resultIndex results now r elapsed r' out. subst r' out.
  unfold UseRecording.onresult. fold elapsed.
  destruct (UseRecording.isPausedRef (UseRecording.refs r)) eqn:Hp;
    [cbn [fst snd]; repeat split; auto|].
  destruct (UseRecording.isRecordingRef r) eqn:Hrec; cbn [negb];
    [|cbn [fst snd]; repeat split; auto].
  destruct (UseRecording.scanResults (drop resultIndex results))
    as [interimTranscript finalTranscript].
  set (interim := if truthy (trim interimTranscript) && hasCallback then _ else _).
  assert (Hinterim : Forall (sentWithin (UseRecording.sessionIdRef (UseRecording.refs r))
                               elapsed) interim).
  { subst interim. destruct (truthy (trim interimTranscript)) eqn:Hi; cbn [andb];
      [|constructor].
    destruct hasCallback; [|constructor].
    pose proof (truthy_nonempty _ Hi) as Hne.
    constructor; [split; [exact Hne | apply trim_idem]|].
    destruct (elapsed <? 10000) eqn:Hlt; [|constructor].
    apply N.ltb_lt in Hlt.
    constructor; [|constructor].
    split; [reflexivity|]. split; [exact Hne|]. split; [apply trim_idem | lia]. }
  destruct (truthy (trim finalTranscript)) eqn:Hf.
  - pose proof (truthy_nonempty _ Hf) as Hfne.
    set (buffer := UseRecording.transcriptBufferRef r ++ _ ++ trim finalTranscript).
    assert (Hbuf : truthy (trim buffer) = true).
    { apply nonempty_truthy. subst buffer. rewrite app_assoc.
      apply trim_app_nonempty. exact Hfne. }
    rewrite Hbuf. cbn [fst snd]. split; [intros [H|H]; discriminate|]. split; [|auto].
    apply Forall_app. split; [exact Hinterim|].
    apply Forall_app. split.
    + destruct hasCallback; constructor; [|constructor].
      split; [exact (truthy_nonempty _ Hbuf) | apply trim_idem].
    + constructor; [|constructor].
      split; [reflexivity|]. split; [exact (truthy_nonempty _ Hbuf)|].
      split; [apply trim_idem | apply interval_of].
  - cbn [fst snd]. split; [intros [H|H]; discriminate|]. split; [exact Hinterim | auto].
Qed.

(** One result event of the Web Speech API in the recording hook.
    While the recording is paused, or not running, the event is
    dropped: nothing is displayed, nothing is sent, the buffer is left
    alone.  Otherwise every [transcript:chunk] event it sends carries
    the session of the hook, a text with content and no white space at
    either end, and the index of the 30-second interval the recording
    time falls in (interim texts are sent during the first ten seconds
    only, for interval 0); final texts are sent at once, so nothing
    stays in the transcript buffer: it is emptied or left as it was,
    and the other refs are never written. *)
Theorem speech_result_is_sent_for_its_interval :
  forall hasCallback resultIndex results now r,
    let elapsed :=
      if 0 <? UseRecording.recordingStartTimeRef r
      then now - UseRecording.recordingStartTimeRef r else 0 in
    let r' := fst (UseRecording.onresult hasCallback resultIndex results now r) in
    let out := snd (UseRecording.onresult hasCallback resultIndex results now r) in
    (UseRecording.isPausedRef (UseRecording.refs r) = true
     \/ UseRecording.isRecordingRef r = false -> r' = r /\ out = [])
    /\ Forall (sentWithin (UseRecording.sessionIdRef (UseRecording.refs r)) elapsed) out
    /\ (r' = r
        \/ r' = UseRecording.mkSpeechRefs (UseRecording.refs r) []
                  (UseRecording.isRecordingRef r) (UseRecording.recordingStartTimeRef r)).
Proof. exact onresult_step. Qed.

(** The recognition results that arrive while the recording is paused,
    however many, are all dropped; and since the handler sends final
    texts at once, a transcript buffer that is empty when the recording
    starts is empty after every event. *)
Theorem speech_results_leave_nothing_behind :
  forall hasCallback events r,
    let r' := fst (UseRecording.onresults hasCallback events r) in
    let out := snd (UseRecording.onresults hasCallback events r) in
    (UseRecording.isPausedRef (UseRecording.refs r) = true -> r' = r /\ out = [])
    /\ (UseRecording.transcriptBufferRef r = [] -> UseRecording.transcriptBufferRef r' = [])
    /\ UseRecording.refs r' = UseRecording.refs r.
Proof.
  intros hasCallback events. induction events as [|[[resultIndex results] now] events IH];
    intros r; [repeat split; auto|].
  cbn [UseRecording.onresults].
  destruct (onresult_step hasCallback resultIndex results now r)
    as [Hpause [_ Hkeep]].
  destruct (UseRecording.onresult hasCallback resultIndex results now r) as [r1 out1].
  cbn [fst snd] in Hpause, Hkeep.
  specialize (IH r1). cbn zeta in IH.
  destruct (UseRecording.onresults hasCallback events r1) as [r2 outs].
  cbn [fst snd] in IH |- *. destruct IH as [I1 [I2 I3]].
  split; [|split].
  - intros Hp. destruct (Hpause (or_introl Hp)) as [-> ->].
    destruct (I1 Hp) as [-> ->]. split; reflexivity.
  - intros Hb. apply I2. destruct Hkeep as [-> | ->]; [exact Hb | reflexivity].
  - rewrite I3. destruct Hkeep as [-> | ->]; reflexivity.
Qed.

(* ===================================================================== *)
(** * The list of live chunks of the dashboard                            *)
(* ===================================================================== *)

Section LiveChunks.

#[local] Arguments includes : simpl never.
#[local] Arguments trim : simpl never.

(** The update of the list, case by case. *)
Lemma onTranscriptUpdate_cases text idx ts prev :
  let next := Dashboard.onTranscriptUpdate text idx ts prev in
  next = prev
  \/ (displayable (Dashboard.mkChunk idx text ts)
      /\ ((exists i existing,
              prev !! i = Some existing /\ Dashboard.index existing = idx
              /\ next = <[i := Dashboard.mkChunk idx text ts]> prev)
          \/ ((forall chunk, chunk ∈ prev -> Dashboard.index chunk <> idx)
              /\ next = prev ++ [Dashboard.mkChunk idx text ts]))).
Proof.
  unfold Dashboard.onTranscriptUpdate, displayable. cbn [Dashboard.text].
  destruct (Dashboard.isPlaceholder text) eqn:Hp; [left; reflexivity|].
  destruct (list_find _ prev) as [[i existing]|] eqn:Hfind.
  - apply list_find_Some in Hfind. destruct Hfind as [Hi [Hidx _]].
    destruct (bool_decide _ && truthy (trim text)) eqn:Hc; [|left; reflexivity].
    apply andb_true_iff in Hc. destruct Hc as [_ Ht].
    right. split; [split; [exact Ht | reflexivity]|]. left. eauto.
  - destruct (truthy (trim text)) eqn:Ht; [|left; reflexivity].
    right. split; [split; [exact Ht | reflexivity]|]. right. split; [|reflexivity].
    intros chunk Hin. apply list_find_None in Hfind.
    rewrite Forall_forall in Hfind. exact (Hfind chunk Hin).
Qed.

End LiveChunks.

(** The list of live transcript chunks the dashboard keeps while
    recording.  An update never removes an entry and never adds a
    second entry for a chunk index (a list without repeated indices
    stays one); it never brings a blank text or a placeholder message
    into the list; and after an update with a text that can be shown,
    the list holds an entry for that chunk index whose text is, up to
    surrounding white space, the text just received. *)
Theorem live_chunk_list_is_kept_consistent :
  forall text idx ts prev,
    let next := Dashboard.onTranscriptUpdate text idx ts prev in
    (length prev <= length next)%nat
    /\ (NoDup (map Dashboard.index prev) -> NoDup (map Dashboard.index next))
    /\ (Forall displayable prev -> Forall displayable next)
    /\ (nonBlank text = true -> Dashboard.isPlaceholder text = false ->
        exists chunk, chunk ∈ next /\ Dashboard.index chunk = idx
                      /\ trim (Dashboard.text chunk) = trim text).
Proof.
  intros text idx ts prev next.
  destruct (onTranscriptUpdate_cases text idx ts prev)
    as [Heq | [Hshow [[i [existing [Hi [Hidx Heq]]]] | [Hnew Heq]]]];
    fold next in Heq; rewrite Heq.
  - split; [lia|]. split; [auto|]. split; [auto|].
    intros Hblank Hph. subst next. unfold Dashboard.onTranscriptUpdate in *.
    rewrite Hph in *. unfold nonBlank in Hblank.
    destruct (list_find _ prev) as [[i existing]|] eqn:Hfind.
    + apply list_find_Some in Hfind. destruct Hfind as [Hi [Hidx _]].
      rewrite Hblank, andb_true_r in *.
      destruct (bool_decide (trim text <> trim (Dashboard.text existing))) eqn:Hd.
      * exists (Dashboard.mkChunk idx text ts). split; [|split; reflexivity].
        rewrite <- Heq. apply list_elem_of_lookup. exists i.
        apply list_lookup_insert_eq. exact (lookup_lt_Some _ _ _ Hi).
      * apply bool_decide_eq_false in Hd. exists existing.
        split; [exact (list_elem_of_lookup_2 _ _ _ Hi)|]. split; [exact Hidx|].
        destruct (decide (trim text = trim (Dashboard.text existing))) as [E|E];
          [symmetry; exact E | contradiction].
    + rewrite Hblank in Heq.
      exfalso. apply (f_equal (@length _)) in Heq. rewrite length_app in Heq.
      cbn in Heq. lia.
  - rewrite length_insert. split; [lia|]. split; [|split].
    + intros Hnd. rewrite list_fmap_insert. cbn [Dashboard.index].
      rewrite list_insert_id; [exact Hnd|].
      rewrite list_lookup_fmap, Hi. cbn. f_equal. exact Hidx.
    + intros Hall. apply Forall_insert; assumption.
    + intros _ _. exists (Dashboard.mkChunk idx text ts). split; [|split; reflexivity].
      apply list_elem_of_lookup. exists i.
      apply list_lookup_insert_eq. exact (lookup_lt_Some _ _ _ Hi).
  - rewrite length_app. split; [lia|]. split; [|split].
    + intros Hnd. rewrite map_app. apply NoDup_app. split; [exact Hnd|].
      split; [|apply NoDup_singleton].
      intros x Hx Hx'. apply list_elem_of_singleton in Hx'. subst x.
      apply list_elem_of_fmap in Hx. destruct Hx as [chunk [Hc Hin]].
      exact (Hnew chunk Hin (eq_sym Hc)).
    + intros Hall. apply Forall_app. split; [exact Hall|]. constructor; [exact Hshow|constructor].
    + intros _ _. exists (Dashboard.mkChunk idx text ts). split; [|split; reflexivity].
      apply elem_of_app. right. apply list_elem_of_singleton. reflexivity.
Qed.

(* ===================================================================== *)
(** * The session routes                                                  *)
(* ===================================================================== *)

Lemma findMany_deleted id rows :
  findMany id (filter (fun chunk => TranscriptChunk.sessionId chunk <> id) rows) = [].
Proof.
  unfold findMany. induction rows as [|c rows IH]; [reflexivity|].
  rewrite filter_cons. destruct (decide (TranscriptChunk.sessionId c <> id)) as [Hc|Hc].
  - rewrite filter_cons_False by exact Hc. exact IH.
  - exact IH.
Qed.

Lemma findMany_not_deleted id other rows :
  other <> id ->
  findMany other (filter (fun chunk => TranscriptChunk.sessionId chunk <> id) rows)
  = findMany other rows.
Proof.
  intros Hne. unfold findMany. induction rows as [|c rows IH]; [reflexivity|].
  rewrite !filter_cons.
  destruct (decide (TranscriptChunk.sessionId c <> id)) as [Hc|Hc].
  - rewrite filter_cons. rewrite IH. reflexivity.
  - rewrite IH. rewrite decide_False; [reflexivity|].
    intros Ho. apply Hc. congruence.
Qed.

(** [DELETE /api/sessions/[id]] answers success exactly when the caller
    is signed in and owns a session with that identifier.  Then that
    session is gone together with all its transcript chunks, and every
    other session and the chunks of every other session are left as
    they were, in their order.  In every other case (401 for no user,
    404 for no such session, 403 for a session of someone else) the
    database is left untouched. *)
Theorem delete_removes_own_session_only :
  forall request d,
    let response := fst (SessionRoute.DELETE request d) in
    let d' := snd (SessionRoute.DELETE request d) in
    let id := StopRoute.id request in
    (response = SessionRoute.Success
     <-> exists session, appSession d !! id = Some session
                         /\ StopRoute.user request = Some (AppSession.userId session))
    /\ (response <> SessionRoute.Success ->
        d' = d /\ response = SessionRoute.Failure
                               match StopRoute.user request with
                               | None => 401
                               | Some _ => match appSession d !! id with
                                           | None => 404
                                           | Some _ => 403
                                           end
                               end)
    /\ (response = SessionRoute.Success ->
        appSession d' !! id = None
        /\ findMany id (transcriptChunk d') = []
        /\ forall other, other <> id ->
             appSession d' !! other = appSession d !! other
             /\ findMany other (transcriptChunk d') = findMany other (transcriptChunk d)).
Proof.
  intros request d response d' id. subst response d' id.
  unfold SessionRoute.DELETE.
  destruct (StopRoute.user request) as [currentUser|].
  - destruct (appSession d !! StopRoute.id request) as [session|] eqn:Hs.
    + case_bool_decide as Howner; cbn [fst snd].
      * split; [split; [discriminate|]|].
        { intros [session' [H1 H2]]. injection H1 as <-. injection H2 as ->.
          contradiction. }
        split; [auto | discriminate].
      * assert (Hown : AppSession.userId session = currentUser).
        { destruct (decide (AppSession.userId session = currentUser)); [assumption|contradiction]. }
        split; [split; [intros _; exists session; rewrite Hown; auto | reflexivity]|].
        split; [intros H; contradiction|]. intros _.
        unfold SessionRoute.deleteSession. cbn [appSession transcriptChunk].
        split; [apply lookup_delete_eq|]. split.
        -- apply findMany_deleted.
        -- intros other Hne. split; [apply lookup_delete_ne; congruence|].
           apply findMany_not_deleted. exact Hne.
    + cbn [fst snd]. split; [split; [discriminate | intros [session [H _]]; discriminate]|].
      split; [auto | discriminate].
  - cbn [fst snd]. split; [split; [discriminate | intros [session [_ H]]; discriminate]|].
    split; [auto | discriminate].
Qed.

(** No route of a session serves a caller who does not own it.  [GET]
    returns a session only to its owner, and then with exactly the
    chunks of that session in ascending order of their indices; the
    stop route changes something, or starts the summary, only for the
    owner; and whenever the stop route answers with a failure, the
    database is what it was and no summary has been started. *)
Theorem routes_serve_the_owner_only :
  forall request d,
    (forall session chunks,
        SessionRoute.GET request d = SessionRoute.SessionJson session chunks ->
        appSession d !! StopRoute.id request = Some session
        /\ StopRoute.user request = Some (AppSession.userId session)
        /\ chunks = Transcription.chunksOf (StopRoute.id request) d)
    /\ (forall status d' background,
           StopRoute.POST request d = (StopRoute.Failure status, d', background) ->
           d' = d /\ background = [])
    /\ (forall d' background,
           StopRoute.POST request d = (StopRoute.Success, d', background) ->
           exists session,
             appSession d !! StopRoute.id request = Some session
             /\ StopRoute.user request = Some (AppSession.userId session)).
Proof.
  intros request d. split; [|split].
  - intros session chunks. unfold SessionRoute.GET.
    destruct (StopRoute.user request) as [currentUser|]; [|discriminate].
    destruct (appSession d !! StopRoute.id request) as [appSession|]; [|discriminate].
    case_bool_decide as Howner; [discriminate|].
    intros H. injection H as <- <-.
    destruct (decide (AppSession.userId appSession = currentUser)) as [<-|];
      [auto | contradiction].
  - intros status d' background. unfold StopRoute.POST, Transcription.updateSession.
    destruct (StopRoute.user request) as [currentUser|];
      [|intros H; injection H as _ <- <-; auto].
    destruct (negb (truthy (StopRoute.id request)));
      [intros H; injection H as _ <- <-; auto|].
    destruct (appSession d !! StopRoute.id request) as [session|];
      [|intros H; injection H as _ <- <-; auto].
    case_bool_decide as Howner; [intros H; injection H as _ <- <-; auto | discriminate].
  - intros d' background. unfold StopRoute.POST.
    destruct (StopRoute.user request) as [currentUser|]; [|discriminate].
    destruct (negb (truthy (StopRoute.id request))); [discriminate|].
    destruct (appSession d !! StopRoute.id request) as [session|]; [|discriminate].
    case_bool_decide as Howner; [discriminate|]. intros _. exists session.
    destruct (decide (AppSession.userId session = currentUser)) as [<-|];
      [auto | contradiction].
Qed.

(* ===================================================================== *)
(** * A range, once written, stays in the running transcript              *)
(* ===================================================================== *)

Section HeaderStays.

#[local] Arguments startsWith : simpl never.
#[local] Arguments combinedText : simpl never.

Lemma includes_cons_intro c s sub : includes s sub = true -> includes (c :: s) sub = true.
Proof. intros H. cbn [includes]. rewrite H. apply orb_true_r. Qed.

Lemma includes_prefix s sub : startsWith s sub = true -> includes s sub = true.
Proof. intros H. destruct s; cbn [includes]; rewrite H; reflexivity. Qed.

(** The replacement keeps an occurrence of the header it replaces. *)
Lemma replaceRange_keeps_header hdr text : forall fuel s,
  includes s hdr = true ->
  includes (replaceRange fuel hdr text s) hdr = true.
Proof.
  induction fuel as [|fuel IH]; intros s Hin; [exact Hin|].
  cbn [replaceRange]. destruct s as [|c s]; [exact Hin|].
  destruct (startsWith (c :: s) hdr) eqn:Hst.
  - destruct (spanNoBracket _) as [body rest].
    apply includes_prefix. apply startsWith_app.
  - cbn [includes] in Hin. rewrite Hst in Hin. cbn [orb] in Hin.
    apply includes_cons_intro. apply IH. exact Hin.
Qed.

End HeaderStays.

(** Whatever the running transcript was, after a text has been merged
    for a time range the header of that range stands in the transcript;
    so the next text for the same range is merged in place, and no
    second block is ever appended for the range. *)
Theorem merged_range_stays_in_transcript :
  forall existingTranscript startTime endTime text,
    let merged := mergeTranscript existingTranscript startTime endTime text in
    includes merged (rangeHeader startTime endTime) = true
    /\ forall text',
         mergeTranscript merged startTime endTime text'
         = replaceAll (rangeHeader startTime endTime) text' merged.
Proof.
  intros existingTranscript startTime endTime text merged.
  assert (Hin : includes merged (rangeHeader startTime endTime) = true).
  { subst merged. unfold mergeTranscript.
    destruct (includes existingTranscript (rangeHeader startTime endTime)) eqn:Hhas.
    - apply replaceRange_keeps_header. exact Hhas.
    - destruct (truthy existingTranscript).
      + apply includes_spec. exists (existingTranscript ++ nl ++ nl), (nl ++ text).
        rewrite <- !app_assoc. reflexivity.
      + apply includes_prefix. apply startsWith_app. }
  split; [exact Hin|]. intros text'. unfold mergeTranscript at 1. rewrite Hin. reflexivity.
Qed.

(* ===================================================================== *)
(** * From the speech handler to the table                                *)
(* ===================================================================== *)

(** A recognised text travels from the hook to the table of the server
    as one would expect: when the speech handler sends a
    [transcript:chunk] event for a session the database knows, and the
    server has no row yet for its session and index (the session
    identifier being valid and the text no placeholder message), the
    [transcript:chunk] handler stores a row with exactly the text sent,
    whose time range, in seconds, contains the recording time at which
    the text was recognised. *)
Theorem speech_transcript_is_stored_for_its_interval :
  forall hasCallback resultIndex results now r sid text idx s,
    UseRecording.TranscriptChunkSent sid text idx
      ∈ snd (UseRecording.onresult hasCallback resultIndex results now r) ->
    ServerIndex.validSessionId sid = true ->
    ServerIndex.isPlaceholder text = false ->
    is_Some (appSession (db s) !! sid) ->
    findFirst sid idx (transcriptChunk (db s)) = None ->
    let elapsed :=
      if 0 <? UseRecording.recordingStartTimeRef r
      then now - UseRecording.recordingStartTimeRef r else 0 in
    exists i row,
      findFirst sid idx
        (transcriptChunk (db (fst (ServerIndex.onTranscriptChunk sid text idx s))))
      = Some (i, row)
      /\ TranscriptChunk.transcript row = text
      /\ TranscriptChunk.startTime row * 1000 <= elapsed
         < TranscriptChunk.endTime row * 1000.
Proof.
  intros hasCallback resultIndex results now r sid text idx s Hsent Hv Hp _ Hnone elapsed.
  destruct (onresult_step hasCallback resultIndex results now r) as [_ [Hall _]].
  rewrite Forall_forall in Hall. specialize (Hall _ Hsent).
  destruct Hall as [_ [_ [Htrim Hint]]]. fold elapsed in Hint.
  rewrite (onTranscriptChunk_create sid text idx s Hv Hp Hnone).
  eexists _, _. split; [apply findFirst_create; [split; reflexivity | exact Hnone]|].
  cbn [TranscriptChunk.transcript TranscriptChunk.startTime TranscriptChunk.endTime].
  split; [exact Htrim | lia].
Qed.

Lemma speech_transcript_is_stored_for_its_interval_witness :
  let r := UseRecording.mkSpeechRefs (UseRecording.mkRefs 0 [] false (lit "s1")) []
             true 1000 in
  let s := mkServer
             (mkDb [] {[ lit "s1" := AppSession.mk (lit "u1") MIC RECORDING None None ]})
             ∅ ∅ ∅ in
  exists i row,
    findFirst (lit "s1") 1
      (transcriptChunk (db (fst (ServerIndex.onTranscriptChunk (lit "s1") (lit "hello") 1 s))))
    = Some (i, row)
    /\ TranscriptChunk.transcript row = lit "hello"
    /\ TranscriptChunk.startTime row * 1000 <= 44000 < TranscriptChunk.endTime row * 1000.
Proof.
  intros r s.
  apply (speech_transcript_is_stored_for_its_interval true 0%nat
           [UseRecording.mkResult (lit " hello") true] 45000 r (lit "s1") (lit "hello") 1 s).
  - vm_compute. apply elem_of_cons. right. apply elem_of_cons. left. reflexivity.
  - reflexivity.
  - reflexivity.
  - exists (AppSession.mk (lit "u1") MIC RECORDING None None). reflexivity.
  - reflexivity.
Defined.

(* ===================================================================== *)
(** * The order in which the back ends are asked                          *)
(* ===================================================================== *)

Section Order.

(** The primary [streamAudioChunk] writes the registry entry of its
    session only. *)
Lemma streamAudioChunk_frame w sid idx registry other :
  other <> sid ->
  snd (fst (GeminiLiveWebsocket.streamAudioChunk w sid idx registry)) !! other
  = registry !! other.
Proof.
  intros Hne. unfold GeminiLiveWebsocket.streamAudioChunk.
  destruct (registry !! sid) as [session|]; [|reflexivity].
  destruct (GeminiLiveWebsocket.geminiWs session) as [state|]; [|reflexivity].
  case_bool_decide; [reflexivity|].
  destruct (GeminiLiveWebsocket.encodeThrows w); [reflexivity|].
  destruct (GeminiLiveWebsocket.sendThrows w); [reflexivity|].
  destruct (GeminiLiveWebsocket.awaitTranscript _ _ _ _) as [[t session'] emitted].
  cbn [fst snd]. apply lookup_insert_ne. congruence.
Qed.

Lemma transcribe_frame w chunk s other :
  other <> Transcription.sessionId chunk ->
  snd (fst (Transcription.transcribe w chunk s)) !! other = websocketSessions s !! other.
Proof.
  intros Hne. unfold Transcription.transcribe, Transcription.restFallback.
  destruct (negb _).
  - destruct (GeminiLiveRest.streamAudioChunk _ _ _ _) as [[t|e] eff];
      [destruct (Transcription.acceptedDirect t)|]; reflexivity.
  - pose proof (streamAudioChunk_frame (primary w) (Transcription.sessionId chunk)
                  (Transcription.chunkIndex chunk) (websocketSessions s) other Hne) as H.
    destruct (GeminiLiveWebsocket.streamAudioChunk _ _ _ _) as [[[t|e] registry] eff];
      cbn [fst snd] in H |- *.
    + destruct (Transcription.acceptedPrimary t); cbn [fst snd]; [exact H|].
      destruct (GeminiLiveRest.streamAudioChunk _ _ _ _) as [[t'|e'] eff'];
        [destruct (Transcription.acceptedFallback t')|]; exact H.
    + destruct (GeminiLiveRest.streamAudioChunk _ _ _ _) as [[t'|e'] eff'];
        [destruct (Transcription.acceptedFallback t')|]; exact H.
Qed.

(** The three shapes of what the selector does. *)
Lemma transcribe_effects w chunk s :
  let sid := Transcription.sessionId chunk in
  let idx := Transcription.chunkIndex chunk in
  let fromPrimary :=
    snd (GeminiLiveWebsocket.streamAudioChunk (primary w) sid idx (websocketSessions s)) in
  let fromSecondary :=
    snd (GeminiLiveRest.streamAudioChunk (secondary w) sid idx (restSessions s)) in
  snd (Transcription.transcribe w chunk s) = Invoked SecondaryBackend sid idx :: fromSecondary
  \/ snd (Transcription.transcribe w chunk s) = Invoked PrimaryBackend sid idx :: fromPrimary
  \/ snd (Transcription.transcribe w chunk s)
     = Invoked PrimaryBackend sid idx :: fromPrimary
       ++ Invoked SecondaryBackend sid idx :: fromSecondary.
Proof.
  cbn zeta. unfold Transcription.transcribe, Transcription.restFallback.
  destruct (negb _).
  - destruct (GeminiLiveRest.streamAudioChunk _ _ _ _) as [[t|e] eff];
      [destruct (Transcription.acceptedDirect t)|]; cbn [fst snd]; auto.
  - destruct (GeminiLiveWebsocket.streamAudioChunk _ _ _ _) as [[[t|e] registry] eff];
      cbn [fst snd].
    + destruct (Transcription.acceptedPrimary t); cbn [fst snd]; [auto|].
      destruct (GeminiLiveRest.streamAudioChunk _ _ _ _) as [[t'|e'] eff'];
        [destruct (Transcription.acceptedFallback t')|]; cbn [fst snd]; auto.
    + destruct (GeminiLiveRest.streamAudioChunk _ _ _ _) as [[t'|e'] eff'];
        [destruct (Transcription.acceptedFallback t')|]; cbn [fst snd]; auto.
Qed.

End Order.

(** For every chunk, [processAudioChunk] asks each back end at most
    once, the primary one first: what happens is the call of the
    secondary back end alone, or the call of the primary back end alone,
    or the call of the primary followed by the call of the secondary,
    each with the effects of that call and nothing else.  It never
    touches the registry of the secondary back end, the recorded chunk
    durations, or the registry entry of another session. *)
Theorem back_ends_are_asked_in_order :
  forall w chunk s,
    let sid := Transcription.sessionId chunk in
    let idx := Transcription.chunkIndex chunk in
    let s' := fst (Transcription.processAudioChunk w chunk s) in
    let effects := snd (Transcription.processAudioChunk w chunk s) in
    let fromPrimary :=
      snd (GeminiLiveWebsocket.streamAudioChunk (primary w) sid idx (websocketSessions s)) in
    let fromSecondary :=
      snd (GeminiLiveRest.streamAudioChunk (secondary w) sid idx (restSessions s)) in
    (effects = Invoked SecondaryBackend sid idx :: fromSecondary
     \/ effects = Invoked PrimaryBackend sid idx :: fromPrimary
     \/ effects = Invoked PrimaryBackend sid idx :: fromPrimary
                  ++ Invoked SecondaryBackend sid idx :: fromSecondary)
    /\ restSessions s' = restSessions s
    /\ sessionMetadata s' = sessionMetadata s
    /\ (forall other, other <> sid ->
           websocketSessions s' !! other = websocketSessions s !! other).
Proof.
  intros w chunk s sid idx s' effects fromPrimary fromSecondary.
  subst s' effects. rewrite processAudioChunk_unfold. cbn [fst snd].
  split; [exact (transcribe_effects w chunk s)|].
  destruct (transcriptionResult w chunk s) as [text|];
    [destruct (Transcription.isPlaceholder text)|];
    cbn [restSessions sessionMetadata websocketSessions withDb withWebsocketSessions];
    (split; [reflexivity|]); (split; [reflexivity|]);
    intros other Hne; exact (transcribe_frame w chunk s other Hne).
Qed.


